(** * An order-k character n-gram (Markov) model with selectable smoothing

    Shallow embedding of [neural_network_cracking/markov_model.py]: the three
    smoothing strategies, the two trainers, context truncation, the
    prediction API and persistence of the frequency table.

    Conventions of the embedding
    - a Python [str] is the list of its code points ([char := N]);
    - the frequency table, a Python [dict] from [str] to [int], is a
      [gmap str Z]; weights, counts, the additive amount and the backoff
      threshold are Python integers ([Z]);
    - a Python exception is an [exn]; a method that mutates an object is a
      computation in the state-and-exception monad [M], whose state is that
      object and which keeps the mutations done before a raise;
    - a [numpy] array of [float64] is a list of [float64] values, where the
      finite numbers are taken as exact rationals and division by zero
      yields an infinity or NaN, as [numpy] does; this is the integer model,
      in which every entry predicted on a zero vector is one quotient of two
      integers;
    - amounts that are not integers and vectors of arbitrary [float64]
      entries, where the rounding of each sum decides the result, are
      modelled apart, in [Ieee] and [FloatSmoother], with the arithmetic of
      IEEE 754 binary64;
    - [pwd_guess.PASSWORD_END], defined outside this file, is a section
      variable. *)

From Stdlib Require Import ZArith QArith Qcanon Lia Ascii String.
From Stdlib Require Floats.SpecFloat.
From stdpp Require Import base numbers list sorting strings gmap fin_maps.

Local Open Scope Z_scope.

(** ** Python primitives *)

Module Py.

Definition char := N.
Abbreviation str := (list N).

(** A literal: the code points of an ASCII string. *)
Fixpoint lit (s : string) : str :=
  match s with
  | EmptyString => []
  | String a s' => Ascii.N_of_ascii a :: lit s'
  end.

Definition len {A} (s : list A) : Z := Z.of_nat (length s).

(** How a slice bound [i] is clamped into [0 .. n] for a sequence of
    length [n]: a negative bound counts from the end. *)
Definition slice_index (n i : Z) : Z :=
  if i <? 0 then Z.max (n + i) 0 else Z.min i n.

(** [s[start:stop]], an omitted bound being [None]. *)
Definition slice {A} (s : list A) (start stop : option Z) : list A :=
  let n := len s in
  let lo := from_option (slice_index n) 0 start in
  let hi := from_option (slice_index n) n stop in
  take (Z.to_nat (hi - lo)) (drop (Z.to_nat lo) s).

(** [range(start, stop)] *)
Definition range (start stop : Z) : list Z :=
  (λ k, start + Z.of_nat k) <$> seq 0 (Z.to_nat (stop - start)).

(** [enumerate(l, start=i)] *)
Fixpoint enumerate_from {A} (i : nat) (l : list A) : list (nat * A) :=
  match l with
  | [] => []
  | x :: l' => (i, x) :: enumerate_from (S i) l'
  end.
Definition enumerate {A} (l : list A) : list (nat * A) := enumerate_from 0 l.

(** [sorted(s)] on characters: ascending code points, duplicates kept. *)
Definition sorted (s : str) : str := merge_sort N.le s.

Inductive exn :=
| AssertionError | KeyError | IndexError | AttributeError | FileNotFoundError
| OverflowError.

Inductive outcome (A : Type) :=
| Return (a : A)
| Raise (e : exn).
Arguments Return {A} a.
Arguments Raise {A} e.

(** State-and-exception computations over a mutable object of type [S]. *)
Definition M (S A : Type) : Type := S → outcome A * S.

Definition ret {S A} (a : A) : M S A := λ s, (Return a, s).
Definition bind {S A B} (m : M S A) (k : A → M S B) : M S B :=
  λ s, match m s with
       | (Return a, s') => k a s'
       | (Raise e, s') => (Raise e, s')
       end.
Definition raise {S A} (e : exn) : M S A := λ s, (Raise e, s).
Definition get {S} : M S S := λ s, (Return s, s).
Definition modify {S} (f : S → S) : M S unit := λ s, (Return tt, f s).
Definition assert {S} (b : bool) : M S unit :=
  if b then ret tt else raise AssertionError.

(** [for x in l: body(x)] *)
Fixpoint for_ {S X} (l : list X) (body : X → M S unit) : M S unit :=
  match l with
  | [] => ret tt
  | x :: l' => bind (body x) (λ _, for_ l' body)
  end.

(** A [for] loop that also updates a local accumulator. *)
Fixpoint for_acc {S X A} (l : list X) (acc : A) (body : A → X → M S A) : M S A :=
  match l with
  | [] => ret acc
  | x :: l' => bind (body acc x) (λ acc', for_acc l' acc' body)
  end.

End Py.

Export Py.

Declare Scope py_scope.
Delimit Scope py_scope with py.
Notation "x <- m ;; k" := (bind m (λ x, k))
  (at level 100, m at next level, k at level 200, right associativity) : py_scope.
Notation "m ;; k" := (bind m (λ _, k))
  (at level 100, k at level 200, right associativity) : py_scope.

(** ** numpy float64 arrays *)

Module Np.

Inductive float64 :=
| Finite (q : Qc)
| Infinity (negative : bool)
| NaN.

(** The float of a Python integer. *)
Definition of_int (n : Z) : Qc := Qc_of_Z n.

(** [x + n] for a float [x] and a Python integer [n]. *)
Definition add_int (x : float64) (n : Z) : float64 :=
  match x with
  | Finite q => Finite (q + of_int n)%Qc
  | Infinity s => Infinity s
  | NaN => NaN
  end.

Definition Qc_is_zero (q : Qc) : bool := bool_decide (q = Q2Qc 0).
Definition Qc_is_neg (q : Qc) : bool := bool_decide (q < Q2Qc 0)%Qc.

(** [x / n] for a float [x] and a Python integer [n]; dividing by zero
    raises nothing: [0/0] is NaN and [x/0] an infinity of the sign of [x]. *)
Definition div_int (x : float64) (n : Z) : float64 :=
  match x with
  | Finite q =>
      if n =? 0 then
        if Qc_is_zero q then NaN else Infinity (Qc_is_neg q)
      else Finite (q / of_int n)%Qc
  | Infinity s => Infinity (xorb s (n <? 0))
  | NaN => NaN
  end.

Definition is_finite (x : float64) : bool :=
  match x with Finite _ => true | _ => false end.

Abbreviation ndarray := (list float64).

(** [np.zeros((n,), dtype=np.float64)] *)
Definition zeros (n : nat) : ndarray := replicate n (Finite (Q2Qc 0)).

(** [a[i] += n] *)
Definition iadd_item (i : nat) (n : Z) : M ndarray unit :=
  λ a, match a !! i with
       | Some x => (Return tt, <[i := add_int x n]> a)
       | None => (Raise IndexError, a)
       end.

(** [a[i] /= n] *)
Definition itruediv_item (i : nat) (n : Z) : M ndarray unit :=
  λ a, match a !! i with
       | Some x => (Return tt, <[i := div_int x n]> a)
       | None => (Raise IndexError, a)
       end.

(** [a.fill(0)] *)
Definition fill_zero : M ndarray unit :=
  λ a, (Return tt, zeros (length a)).

End Np.

Export Np.

(** ** Python numbers and float64 with its rounding

    Where an amount or an entry of the vector is not an integer, the sums and
    quotients of [float64] are rounded. This module has the arithmetic of
    IEEE 754 binary64 (round to nearest, ties to even), which both the Python
    [float] and [numpy.float64] follow. *)

Module Ieee.

Abbreviation binary64 := SpecFloat.spec_float.

Definition add : binary64 → binary64 → binary64 := SpecFloat.SFadd 53 1024.
(** Division raises nothing under [numpy]: a zero divisor gives an infinity
    or NaN. *)
Definition div : binary64 → binary64 → binary64 := SpecFloat.SFdiv 53 1024.

(** [float(n)] of a Python integer: the nearest binary64, and
    [OverflowError] when [n] is beyond the range. *)
Definition of_int (n : Z) : outcome binary64 :=
  match SpecFloat.binary_normalize 53 1024 n 0 false with
  | SpecFloat.S754_infinity _ => Raise OverflowError
  | x => Return x
  end.

(** A Python number as this file meets it: an [int] or a [float]. *)
Inductive number :=
| Int (n : Z)
| Float (x : binary64).

(** The float operand that arithmetic with a float takes from a number. *)
Definition to_float (v : number) : outcome binary64 :=
  match v with
  | Int n => of_int n
  | Float x => Return x
  end.

(** [u + v]: exact on two integers, a rounded float sum otherwise. *)
Definition number_add (u v : number) : outcome number :=
  match u, v with
  | Int a, Int b => Return (Int (a + b))
  | _, _ =>
      match to_float u with
      | Raise e => Raise e
      | Return x =>
          match to_float v with
          | Raise e => Raise e
          | Return y => Return (Float (add x y))
          end
      end
  end.

Abbreviation ndarray := (list binary64).

(** [np.zeros((n,), dtype=np.float64)] *)
Definition zeros (n : nat) : ndarray := replicate n (SpecFloat.S754_zero false).

(** [a[i] += v] *)
Definition iadd_item (i : nat) (v : number) : M ndarray unit :=
  λ a, match a !! i with
       | Some x =>
           match to_float v with
           | Return y => (Return tt, <[i := add x y]> a)
           | Raise e => (Raise e, a)
           end
       | None => (Raise IndexError, a)
       end.

(** [a[i] /= v] *)
Definition itruediv_item (i : nat) (v : number) : M ndarray unit :=
  λ a, match a !! i with
       | Some x =>
           match to_float v with
           | Return y => (Return tt, <[i := div x y]> a)
           | Raise e => (Raise e, a)
           end
       | None => (Raise IndexError, a)
       end.

Definition lit_1e_300 : binary64 := SpecFloat.S754_finite false 6032057205060441 (-1049).
Definition lit_1_0 : binary64 := SpecFloat.S754_finite false 4503599627370496 (-52).

End Ieee.

(** ** Configuration and module constants *)

Module Config.
(** The attributes of the configuration object that this file reads. *)
Record t := {
  char_bag : str;
  additive_smoothing_amount : Z;
  backoff_smoothing_threshold : Z
}.
End Config.

Definition PASSWORD_START : char := 9%N.

(** The configuration [read_config] yields when neither key of
    [DEFAULT_CONFIG] is set by the caller. *)
Definition DEFAULT_CONFIG (bag : str) : Config.t :=
  {| Config.char_bag := bag;
     Config.additive_smoothing_amount := 0;
     Config.backoff_smoothing_threshold := 10 |}.

(** ** Smoothing strategies *)

Module Smoother.

Inductive class :=
| NoSmoothingSmoother
| AdditiveSmoothingSmoother
| BackoffSmoother.

Record t := {
  cls : class;
  alphabet : str;
  freq_dict : gmap str Z;
  config : Config.t
}.

(** [__init__] of the three classes; [amount] and [threshold] are the
    attributes the subclasses copy from the configuration. *)
Definition init (c : class) (freq_dict : gmap str Z) (config : Config.t) : t :=
  {| cls := c;
     alphabet := sorted (Config.char_bag config);
     freq_dict := freq_dict;
     config := config |}.

Definition amount (self : t) : Z := Config.additive_smoothing_amount (config self).
Definition threshold (self : t) : Z := Config.backoff_smoothing_threshold (config self).

Definition freq (self : t) (ngram : str) : Z :=
  match cls self with
  | NoSmoothingSmoother =>
      match freq_dict self !! ngram with Some v => v | None => 0 end
  | AdditiveSmoothingSmoother =>
      match freq_dict self !! ngram with
      | Some v => v + amount self
      | None => amount self
      end
  | BackoffSmoother =>
      let answer :=
        match freq_dict self !! ngram with
        | Some v => v + amount self
        | None => amount self
        end in
      if answer <? threshold self then 0 else answer
  end.

(** The body of the loop of [sum_elems]. *)
Definition sum_elems_step (self : t) (ctx_arg : str) (total_sum : Z)
    (entry : nat * char) : M ndarray Z :=
  let '(i, next_char) := entry in
  let ngram := ctx_arg ++ [next_char] in
  let freq := freq self ngram in
  (iadd_item i freq ;;
   ret (total_sum + freq))%py.

Definition sum_elems (self : t) (ctx_arg : str) : M ndarray Z :=
  for_acc (enumerate (alphabet self)) 0 (sum_elems_step self ctx_arg).

(** The closing loop of [_predict]: [answer[i] /= total_sum] for every [i]. *)
Definition divide_all (self : t) (total_sum : Z) : M ndarray unit :=
  for_ (seq 0 (length (alphabet self))) (λ i, itruediv_item i total_sum).

(** [assert answer.shape == (len(self.alphabet),)] *)
Definition assert_shape (self : t) : M ndarray unit :=
  (answer <- get ;;
   assert (bool_decide (length answer = length (alphabet self))))%py.

(** [_predict], overridden by the backoff class. The backoff class calls
    [self.predict(ctx_arg[1:], answer)] after asserting that [ctx_arg] is
    not empty, so [ctx_arg[1:]] is the tail of [ctx_arg]. *)
Fixpoint _predict (self : t) (ctx_arg : str) {struct ctx_arg} : M ndarray unit :=
  match cls self with
  | BackoffSmoother =>
      (total_sum <- sum_elems self ctx_arg ;;
       if total_sum =? 0 then
         fill_zero ;;
         match ctx_arg with
         | [] => raise AssertionError
         | _ :: ctx_tail => assert_shape self ;; _predict self ctx_tail
         end
       else divide_all self total_sum)%py
  | _ =>
      (total_sum <- sum_elems self ctx_arg ;;
       divide_all self total_sum)%py
  end.

Definition predict (self : t) (ctx_arg : str) : M ndarray unit :=
  (assert_shape self ;; _predict self ctx_arg)%py.

End Smoother.

(** ** The strategies without backoff over Python numbers

    [read_config] takes the additive amount from the configuration file or
    from [eval] of a command-line value, so it can be a [float]; the vector
    handed to [predict] can hold any [float64]. This module has the classes
    [NoSmoothingSmoother] and [AdditiveSmoothingSmoother] once more, over a
    table of integer counts, with the amount a number and the rounding of
    [float64] in every sum and quotient. *)

Module FloatSmoother.
Import Ieee.

Inductive class :=
| NoSmoothingSmoother
| AdditiveSmoothingSmoother.

(** The attributes of the configuration that the two classes read. *)
Record config := {
  char_bag : str;
  additive_smoothing_amount : number
}.

Record t := {
  cls : class;
  alphabet : str;
  freq_dict : gmap str Z;
  amount : number
}.

Definition init (c : class) (freq_dict : gmap str Z) (cfg : config) : t :=
  {| cls := c;
     alphabet := sorted (char_bag cfg);
     freq_dict := freq_dict;
     amount := additive_smoothing_amount cfg |}.

Definition freq (self : t) (ngram : str) : outcome number :=
  match cls self with
  | NoSmoothingSmoother =>
      Return (match freq_dict self !! ngram with Some v => Int v | None => Int 0 end)
  | AdditiveSmoothingSmoother =>
      match freq_dict self !! ngram with
      | Some v => number_add (Int v) (amount self)
      | None => Return (amount self)
      end
  end.

(** The result of an expression that mutates nothing, within a method. *)
Definition eval_ {S A} (r : outcome A) : M S A := λ s, (r, s).

(** The body of the loop of [sum_elems]. *)
Definition sum_elems_step (self : t) (ctx_arg : str) (total_sum : number)
    (entry : nat * char) : M ndarray number :=
  let '(i, next_char) := entry in
  let ngram := ctx_arg ++ [next_char] in
  (freq <- eval_ (freq self ngram) ;;
   iadd_item i freq ;;
   eval_ (number_add total_sum freq))%py.

Definition sum_elems (self : t) (ctx_arg : str) : M ndarray number :=
  for_acc (enumerate (alphabet self)) (Int 0) (sum_elems_step self ctx_arg).

Definition _predict (self : t) (ctx_arg : str) : M ndarray unit :=
  (total_sum <- sum_elems self ctx_arg ;;
   for_ (seq 0 (length (alphabet self))) (λ i, itruediv_item i total_sum))%py.

Definition predict (self : t) (ctx_arg : str) : M ndarray unit :=
  (answer <- get ;;
   assert (bool_decide (length answer = length (alphabet self))) ;;
   _predict self ctx_arg)%py.

End FloatSmoother.

(** ** Serialized model state *)

(** A JSON object with string keys and integer values, as the list of its
    members, and a file system holding such documents. *)
Abbreviation json := (list (str * Z)).
Abbreviation file_system := (gmap string json).

(** [json.dump] writes one member per key of the dictionary. *)
Definition json_dump (d : gmap str Z) : json := map_to_list d.

(** [json.load] builds a plain [dict]; of two members with one key the later
    wins. *)
Definition json_load (doc : json) : gmap str Z :=
  foldl (λ d kv, <[kv.1 := kv.2]> d) ∅ doc.

(** ** The model *)

Module MarkovModel.

Inductive class := ClsMarkovModel | ClsBackoffMarkovModel.

Record t := {
  cls : class;
  alphabet : str;
  chars_to_index : gmap N nat;
  smoothing : string;
  freq_dict : gmap str Z;
  (** whether [freq_dict] is a [collections.defaultdict(int)] (after
      [__init__]) or a plain [dict] (after [fromModelFile]) *)
  freq_dict_default : bool;
  order : Z;
  config : Config.t;
  smoother : option Smoother.t
}.

Definition SMOOTHING_MAP (kind : string) : option Smoother.class :=
  if String.eqb kind "none" then Some Smoother.NoSmoothingSmoother
  else if String.eqb kind "additive" then Some Smoother.AdditiveSmoothingSmoother
  else if String.eqb kind "backoff" then Some Smoother.BackoffSmoother
  else None.

(** The smoother is bound to the very dictionary object of the model: a
    mutation of the table is seen through both references. *)
Definition set_freq_dict (d : gmap str Z) (self : t) : t :=
  {| cls := cls self; alphabet := alphabet self;
     chars_to_index := chars_to_index self; smoothing := smoothing self;
     freq_dict := d; freq_dict_default := freq_dict_default self;
     order := order self; config := config self;
     smoother :=
       (λ s, {| Smoother.cls := Smoother.cls s;
                Smoother.alphabet := Smoother.alphabet s;
                Smoother.freq_dict := d;
                Smoother.config := Smoother.config s |})
         <$> smoother self |}.

Definition set_smoother (s : option Smoother.t) (self : t) : t :=
  {| cls := cls self; alphabet := alphabet self;
     chars_to_index := chars_to_index self; smoothing := smoothing self;
     freq_dict := freq_dict self; freq_dict_default := freq_dict_default self;
     order := order self; config := config self;
     smoother := s |}.

Definition set_alphabet (a : str) (self : t) : t :=
  {| cls := cls self; alphabet := a;
     chars_to_index := chars_to_index self; smoothing := smoothing self;
     freq_dict := freq_dict self; freq_dict_default := freq_dict_default self;
     order := order self; config := config self;
     smoother := smoother self |}.

Section pwd_guess.
Variable PASSWORD_END : char.

(** [MarkovModel.__init__], for an object of class [c]. *)
Definition init (c : class) (config : Config.t) (smoothing : string)
    (order : Z) : outcome t :=
  let alphabet := sorted (Config.char_bag config) in
  let self :=
    {| cls := c;
       alphabet := alphabet;
       chars_to_index :=
         foldl (λ d ic, <[ic.2 := ic.1]> d) ∅ (enumerate alphabet);
       smoothing := smoothing;
       freq_dict := ∅;
       freq_dict_default := true;
       order := order;
       config := config;
       smoother := None |} in
  if bool_decide (PASSWORD_END ∈ alphabet) then Return self
  else Raise AssertionError.

Definition make_smoother (self : t) : outcome Smoother.t :=
  match SMOOTHING_MAP (smoothing self) with
  | Some c => Return (Smoother.init c (freq_dict self) (config self))
  | None => Raise KeyError
  end.

Definition increment (pwd : str) (freq : Z) : M t unit :=
  (assert (negb (freq =? 0)) ;;
   self <- get ;;
   assert (len pwd <=? order self) ;;
   match freq_dict self !! pwd with
   | Some v => modify (set_freq_dict (<[pwd := v + freq]> (freq_dict self)))
   | None =>
       if freq_dict_default self
       then modify (set_freq_dict (<[pwd := 0 + freq]> (freq_dict self)))
       else raise KeyError
   end)%py.

Definition train_on_pwd (pwd : str) (freq : Z) : M t unit :=
  (self <- get ;;
   let pwd_len_plus_one := len pwd + 1 in
   for_ (range 1 (Z.min (order self) pwd_len_plus_one)) (λ j,
     increment (slice pwd None (Some j)) freq) ;;
   for_ (range 0 (pwd_len_plus_one - order self)) (λ i,
     increment (slice pwd (Some i) (Some (i + order self))) freq) ;;
   increment (slice pwd (Some (- order self + 1)) None ++ [PASSWORD_END]) freq)%py.

Definition truncate_context (self : t) (context : str) : str :=
  if len context >=? order self
  then slice context (Some (- (order self - 1))) None
  else context.

Definition predict (self : t) (context : str) : M ndarray unit :=
  match smoother self with
  | Some s => Smoother.predict s (truncate_context self context)
  | None => raise AttributeError
  end.

Definition probability_next_char (self : t) (context : str) (nc : char)
    : outcome float64 :=
  match chars_to_index self !! nc with
  | None => Raise AssertionError
  | Some idx =>
      let probs := zeros (length (alphabet self)) in
      match predict self context probs with
      | (Raise e, _) => Raise e
      | (Return _, probs') =>
          match probs' !! idx with
          | Some p => Return p
          | None => Raise IndexError
          end
      end
  end.

Definition saveModel (self : t) (fname : string) (fs : file_system)
    : file_system :=
  <[fname := json_dump (freq_dict self)]> fs.

End pwd_guess.

End MarkovModel.

Module BackoffMarkovModel.
Import MarkovModel.

Section pwd_guess.
Variable PASSWORD_END : char.

Definition init (config : Config.t) (smoothing : string) (order : Z)
    : outcome t :=
  match MarkovModel.init PASSWORD_END ClsBackoffMarkovModel config smoothing order with
  | Raise e => Raise e
  | Return self =>
      if String.eqb smoothing "backoff"
      then Return (set_alphabet (alphabet self ++ [PASSWORD_START]) self)
      else Raise AssertionError
  end.

Definition train_on_pwd (pwd : str) (freq : Z) : M t unit :=
  (self <- get ;;
   let pwd_norm := [PASSWORD_START] ++ pwd ++ [PASSWORD_END] in
   let pwd_len := len pwd_norm in
   for_ (range 0 pwd_len) (λ pwd_idx,
     let pwd_idx_plus_one := pwd_idx + 1 in
     for_ (range 0 (Z.min (order self) (pwd_len - pwd_idx))) (λ order_idx,
       increment (slice pwd_norm (Some pwd_idx)
                    (Some (pwd_idx_plus_one + order_idx))) freq)))%py.

End pwd_guess.

End BackoffMarkovModel.

(** ** Method resolution, training and loading *)

Section pwd_guess.
Variable PASSWORD_END : char.
Import MarkovModel.

(** [cls(config, smoothing=smoothing, order=order)] *)
Definition construct (c : class) (config : Config.t) (smoothing : string)
    (order : Z) : outcome t :=
  match c with
  | ClsMarkovModel => MarkovModel.init PASSWORD_END ClsMarkovModel config smoothing order
  | ClsBackoffMarkovModel => BackoffMarkovModel.init PASSWORD_END config smoothing order
  end.

(** [self.train_on_pwd(pwd, freq)], resolved on the class of [self]. *)
Definition virtual_train_on_pwd (pwd : str) (freq : Z) : M t unit :=
  (self <- get ;;
   match cls self with
   | ClsMarkovModel => MarkovModel.train_on_pwd PASSWORD_END pwd freq
   | ClsBackoffMarkovModel => BackoffMarkovModel.train_on_pwd PASSWORD_END pwd freq
   end)%py.

Definition train (pwds : list (str * Z)) : M t unit :=
  (for_ pwds (λ pf, virtual_train_on_pwd pf.1 pf.2) ;;
   self <- get ;;
   match make_smoother self with
   | Return s => modify (set_smoother (Some s))
   | Raise e => raise e
   end)%py.

Definition fromModelFile (c : class) (fname : string) (config : Config.t)
    (smoothing : string) (order : Z) (fs : file_system) : outcome t :=
  match fs !! fname with
  | None => Raise FileNotFoundError
  | Some doc =>
      let oobj := json_load doc in
      match construct c config smoothing order with
      | Raise e => Raise e
      | Return answer =>
          let answer :=
            {| cls := cls answer; alphabet := alphabet answer;
               chars_to_index := chars_to_index answer;
               smoothing := MarkovModel.smoothing answer;
               freq_dict := oobj; freq_dict_default := false;
               order := MarkovModel.order answer; config := config;
               smoother := smoother answer |} in
          match make_smoother answer with
          | Raise e => Raise e
          | Return s => Return (set_smoother (Some s) answer)
          end
      end
  end.

(** [MarkovModelBuilder.build] *)
Definition build (config : Config.t) (smoothing : string) (order : Z)
    (model_file : option string) (fs : file_system) : outcome t :=
  let c := if String.eqb smoothing "backoff"
           then ClsBackoffMarkovModel else ClsMarkovModel in
  match model_file with
  | Some fname => fromModelFile c fname config smoothing order fs
  | None => construct c config smoothing order
  end.

End pwd_guess.

(** ** The guessing function *)

Module MarkovGuessingFunction.

(** The attributes of the guesser that [conditional_probs_many] reads: the
    model, [self.ctable.vocab_size] and [self.relevel_not_matching_passwords]. *)
Record t := {
  model : MarkovModel.t;
  vocab_size : nat;
  relevel_not_matching_passwords : bool
}.

(** An array of shape [(n, 1, v)]: [n] planes of one row each. *)
Abbreviation array3 := (list (list ndarray)).

(** [np.zeros((n, 1, v), dtype=np.float64)] *)
Definition zeros3 (n v : nat) : array3 := replicate n [zeros v].

(** [self.model.predict(astring, answer[i, 0])]: the row is a view of the
    array, so what [predict] writes, also before a raise, is written to the
    array. *)
Definition predict_into (self : t) (i : nat) (astring : str) : M array3 unit :=
  λ answer,
    match answer !! i with
    | Some plane =>
        match plane !! 0%nat with
        | Some row =>
            let '(r, row') := MarkovModel.predict (model self) astring row in
            (r, <[i := <[0%nat := row']> plane]> answer)
        | None => (Raise IndexError, answer)
        end
    | None => (Raise IndexError, answer)
    end.

Section pwd_guess.
(** [relevel_prediction_many], inherited from the guesser classes of
    [pwd_guess]. *)
Variable relevel_prediction_many : t → list str → M array3 unit.

Definition conditional_probs_many (self : t) (astring_list : list str)
    : outcome array3 :=
  let answer := zeros3 (length astring_list) (vocab_size self) in
  let run :=
    (for_ (enumerate astring_list) (λ entry,
       predict_into self entry.1 entry.2) ;;
     if relevel_not_matching_passwords self
     then relevel_prediction_many self astring_list
     else ret tt)%py in
  match run answer with
  | (Return _, answer') => Return answer'
  | (Raise e, _) => Raise e
  end.

End pwd_guess.

End MarkovGuessingFunction.

(** ** Reference definitions, in the words of the specification *)

(** The trailing [k] characters of [s] (all of [s] when it is shorter). *)
Definition last_chars {A} (k : nat) (s : list A) : list A :=
  drop (length s - k)%nat s.

(** The ngrams the standard trainer is to increment for one password: the
    prefixes of length [1 .. min (order-1) (len pwd)], the windows of width
    [order] starting at [0 .. len pwd + 1 - order - 1], and the trailing
    [order - 1] characters followed by the end sentinel. *)
Definition standard_ngrams (PASSWORD_END : char) (order : nat) (pwd : str)
    : list str :=
  ((λ j, take j pwd) <$> seq 1 (Nat.min (order - 1) (length pwd)))
  ++ ((λ i, take order (drop i pwd)) <$> seq 0 (length pwd + 1 - order))
  ++ [last_chars (order - 1) pwd ++ [PASSWORD_END]].

(** One increment of the table by [weight], a missing ngram counting 0. *)
Definition bump (weight : Z) (d : gmap str Z) (ngram : str) : gmap str Z :=
  <[ngram := default 0 (d !! ngram) + weight]> d.

Definition Zsum (l : list Z) : Z := foldr Z.add 0 l.

(** The count of an ngram in the table, a missing ngram counting 0. *)
Definition count (d : gmap str Z) (ngram : str) : Z := default 0 (d !! ngram).

(** The raw total count of a context: the sum over the alphabet characters
    [c] of the count of [context + c]. *)
Definition raw_total (d : gmap str Z) (alphabet : str) (context : str) : Z :=
  Zsum ((λ c, count d (context ++ [c])) <$> alphabet).

(** The smoothed counts a strategy looks up for a context, in alphabet
    order, and their total. *)
Definition next_freqs (s : Smoother.t) (context : str) : list Z :=
  (λ c, Smoother.freq s (context ++ [c])) <$> Smoother.alphabet s.
Definition total_mass (s : Smoother.t) (context : str) : Z :=
  Zsum (next_freqs s context).

(** The distribution of a context: every smoothed count over the total. *)
Definition distribution (s : Smoother.t) (context : str) : ndarray :=
  (λ f, div_int (Finite (of_int f)) (total_mass s context))
    <$> next_freqs s context.

(** The ngrams the backoff-oriented trainer is to increment for one
    password: in the normalized string, for every start index [p] and every
    length [L] from 1 to [min order (remaining length)], the substring of
    length [L] starting at [p]. *)
Definition backoff_ngrams (PASSWORD_END : char) (order : nat) (pwd : str)
    : list str :=
  let pwd_norm := PASSWORD_START :: pwd ++ [PASSWORD_END] in
  concat ((λ p, (λ L, take L (drop p pwd_norm))
                  <$> seq 1 (Nat.min order (length pwd_norm - p)))
            <$> seq 0 (length pwd_norm)).

(** The total weight of a training corpus. *)
Definition total_weight (pwds : list (str * Z)) : Z := Zsum (snd <$> pwds).

(** The model after the ngrams of [l] were incremented by [weight], in
    order. *)
Definition apply_increments (weight : Z) (l : list str) (self : MarkovModel.t)
    : MarkovModel.t :=
  foldl (λ m g, MarkovModel.set_freq_dict (bump weight (MarkovModel.freq_dict m) g) m)
        self l.

(** Two states of a model that differ at most in the table and in the bound
    smoother. *)
Definition same_settings (m m' : MarkovModel.t) : Prop :=
  MarkovModel.cls m' = MarkovModel.cls m
  ∧ MarkovModel.alphabet m' = MarkovModel.alphabet m
  ∧ MarkovModel.chars_to_index m' = MarkovModel.chars_to_index m
  ∧ MarkovModel.smoothing m' = MarkovModel.smoothing m
  ∧ MarkovModel.freq_dict_default m' = MarkovModel.freq_dict_default m
  ∧ MarkovModel.order m' = MarkovModel.order m
  ∧ MarkovModel.config m' = MarkovModel.config m.

(** How often the ngram [g] is in the list [l]. *)
Definition occurrences (g : str) (l : list str) : Z :=
  Z.of_nat (length (filter (λ x, x = g) l)).

(** The ngrams the trainer of a class increments for one password. *)
Definition trainer_ngrams (PASSWORD_END : char) (c : MarkovModel.class)
    (order : Z) (pwd : str) : list str :=
  match c with
  | MarkovModel.ClsMarkovModel => standard_ngrams PASSWORD_END (Z.to_nat order) pwd
  | MarkovModel.ClsBackoffMarkovModel => backoff_ngrams PASSWORD_END (Z.to_nat order) pwd
  end.

(** All increments of a corpus, in training order, as (ngram, weight). *)
Definition corpus_increments (PASSWORD_END : char) (c : MarkovModel.class)
    (order : Z) (pwds : list (str * Z)) : list (str * Z) :=
  pwds ≫= λ pf, (λ g, (g, pf.2)) <$> trainer_ngrams PASSWORD_END c order pf.1.

(** The table those increments build from the empty one. *)
Definition corpus_table (PASSWORD_END : char) (c : MarkovModel.class)
    (order : Z) (pwds : list (str * Z)) : gmap str Z :=
  foldl (λ d gw, bump gw.2 d gw.1) ∅ (corpus_increments PASSWORD_END c order pwds).

(** The weighted number of times a corpus increments the ngram [g]. *)
Definition corpus_count (PASSWORD_END : char) (c : MarkovModel.class)
    (order : Z) (pwds : list (str * Z)) (g : str) : Z :=
  Zsum ((λ pf, pf.2 * occurrences g (trainer_ngrams PASSWORD_END c order pf.1))
          <$> pwds).

(** No ngram of the table is longer than the order. *)
Definition keys_within_order (m : MarkovModel.t) : Prop :=
  ∀ g, is_Some (MarkovModel.freq_dict m !! g) → len g ≤ MarkovModel.order m.

(** ** The end-to-end example of the specification

    Order 2, character set [{$, a, b}] with [$] as the end sentinel, and the
    one-password corpus [("ab", 1)], whose table under the standard trainer
    is [{"a": 1, "ab": 1, "b$": 1}]. *)

Module Example.

Definition END : char := 36%N.

Definition config (amount threshold : Z) : Config.t :=
  {| Config.char_bag := lit "ab$";
     Config.additive_smoothing_amount := amount;
     Config.backoff_smoothing_threshold := threshold |}.

Definition corpus : list (str * Z) := [(lit "ab", 1)].

Definition table : gmap str Z :=
  {[ lit "a" := 1; lit "ab" := 1; lit "b$" := 1 ]}.

Definition smoother (c : Smoother.class) (amount threshold : Z) : Smoother.t :=
  Smoother.init c table (config amount threshold).

End Example.

(** * Properties *)

(** ** The monad and the loops *)

Section monad_lemmas.
Context {S : Type}.

Lemma bind_ext {A B} (m1 m2 : M S A) (k1 k2 : A → M S B) (s : S) :
  m1 s = m2 s → (∀ a s', k1 a s' = k2 a s') → bind m1 k1 s = bind m2 k2 s.
Proof.
  intros Hm Hk. unfold bind. rewrite Hm.
  destruct (m2 s) as [[a|e] s']; [apply Hk | reflexivity].
Qed.

Lemma bind_get {B} (k : S → M S B) (s : S) : bind get k s = k s s.
Proof. reflexivity. Qed.

Lemma bind_assert_true {B} (b : bool) (k : unit → M S B) (s : S) :
  b = true → bind (assert b) k s = k tt s.
Proof. intros ->. reflexivity. Qed.

Lemma bind_assert_false {B} (b : bool) (k : unit → M S B) (s : S) :
  b = false → bind (assert b) k s = (Raise AssertionError, s).
Proof. intros ->. reflexivity. Qed.

Lemma for_app {X} (l1 l2 : list X) (body : X → M S unit) (s : S) :
  for_ (l1 ++ l2) body s = bind (for_ l1 body) (λ _, for_ l2 body) s.
Proof.
  revert s. induction l1 as [|x l1 IH]; intros s; simpl.
  - reflexivity.
  - unfold bind. destruct (body x s) as [[[]|e] s']; [exact (IH s') | reflexivity].
Qed.

Lemma for_ext {X} (l : list X) (body1 body2 : X → M S unit) (s : S) :
  (∀ x s', x ∈ l → body1 x s' = body2 x s') →
  for_ l body1 s = for_ l body2 s.
Proof.
  revert s. induction l as [|x l IH]; intros s Hb; simpl; [reflexivity|].
  unfold bind. rewrite (Hb x s) by left.
  destruct (body2 x s) as [[[]|e] s']; [|reflexivity].
  apply IH. intros y s'' Hy. apply Hb. by right.
Qed.

Lemma for_fmap {X Y} (f : X → Y) (l : list X) (body : Y → M S unit) (s : S) :
  for_ (f <$> l) body s = for_ l (λ x, body (f x)) s.
Proof.
  revert s. induction l as [|x l IH]; intros s; simpl; [reflexivity|].
  unfold bind. destruct (body (f x) s) as [[[]|e] s']; [apply IH | reflexivity].
Qed.

Lemma for_concat {X} (ll : list (list X)) (body : X → M S unit) (s : S) :
  for_ (concat ll) body s = for_ ll (λ l, for_ l body) s.
Proof.
  revert s. induction ll as [|l ll IH]; intros s; [reflexivity|].
  simpl. rewrite for_app. apply bind_ext; [reflexivity|].
  intros _ s'. apply IH.
Qed.

Lemma for_singleton {X} (x : X) (body : X → M S unit) (s : S) :
  for_ [x] body s = body x s.
Proof.
  simpl. unfold bind. by destruct (body x s) as [[[]|e] s'].
Qed.

End monad_lemmas.

(** ** Slices *)

Section slice_lemmas.
Context {A : Type}.
Implicit Types s : list A.

Lemma slice_prefix s (j : Z) :
  0 ≤ j → slice s None (Some j) = take (Z.to_nat j) s.
Proof.
  intros Hj. unfold slice, slice_index, len. simpl.
  destruct (Z.ltb_spec j 0); [lia|].
  change (Z.to_nat 0) with 0%nat. rewrite drop_0.
  destruct (Z.le_gt_cases j (Z.of_nat (length s))).
  - f_equal. lia.
  - rewrite !take_ge; [done | lia | lia].
Qed.

Lemma slice_window s (i k : Z) :
  0 ≤ i → 0 ≤ k →
  slice s (Some i) (Some (i + k)) = take (Z.to_nat k) (drop (Z.to_nat i) s).
Proof.
  intros Hi Hk. unfold slice, slice_index, len. simpl.
  destruct (Z.ltb_spec i 0); [lia|].
  destruct (Z.ltb_spec (i + k) 0); [lia|].
  destruct (Z.le_gt_cases i (Z.of_nat (length s))).
  - rewrite (Z.min_l i) by lia.
    destruct (Z.le_gt_cases (i + k) (Z.of_nat (length s))).
    + f_equal. lia.
    + rewrite !take_ge; [done | rewrite length_drop; lia | rewrite length_drop; lia].
  - rewrite (drop_ge s (Z.to_nat i)) by lia.
    rewrite take_nil. rewrite !Z.min_r by lia.
    rewrite Z.sub_diag. reflexivity.
Qed.

Lemma slice_from s (i : Z) :
  0 ≤ i → slice s (Some i) None = drop (Z.to_nat i) s.
Proof.
  intros Hi. unfold slice, slice_index, len. simpl.
  destruct (Z.ltb_spec i 0); [lia|].
  destruct (Z.le_gt_cases i (Z.of_nat (length s))).
  - rewrite Z.min_l by lia. apply take_ge. rewrite length_drop. lia.
  - rewrite (drop_ge s (Z.to_nat i)) by lia.
    rewrite Z.min_r, Z.sub_diag by lia. reflexivity.
Qed.

Lemma slice_last s (k : Z) :
  0 < k → slice s (Some (- k)) None = last_chars (Z.to_nat k) s.
Proof.
  intros Hk. unfold slice, slice_index, len, last_chars. simpl.
  destruct (Z.ltb_spec (- k) 0); [|lia].
  replace (Z.to_nat (Z.max (Z.of_nat (length s) + - k) 0))
    with (length s - Z.to_nat k)%nat by lia.
  apply take_ge. rewrite length_drop. lia.
Qed.

Lemma slice_tail (x : A) s : slice (x :: s) (Some 1) None = s.
Proof. rewrite slice_from by lia. reflexivity. Qed.

End slice_lemmas.

Lemma range_seq (a b : Z) :
  range a b = (λ k, a + Z.of_nat k) <$> seq 0 (Z.to_nat (b - a)).
Proof. reflexivity. Qed.

(** ** The increment primitive and the standard trainer *)

Section trainer.
Variable PASSWORD_END : char.
Import MarkovModel.

Lemma apply_increments_order w l self :
  order (apply_increments w l self) = order self.
Proof.
  unfold apply_increments. revert self.
  induction l as [|g l IH]; intros self; simpl; [done|]. by rewrite IH.
Qed.

Lemma apply_increments_freq_dict w l self :
  freq_dict (apply_increments w l self) = foldl (bump w) (freq_dict self) l.
Proof.
  unfold apply_increments. revert self.
  induction l as [|g l IH]; intros self; simpl; [done|]. by rewrite IH.
Qed.

(** On a table that is a [defaultdict], an increment by a nonzero weight
    of an ngram no longer than the order succeeds and adds the weight. *)
Lemma increment_ok g w self :
  w ≠ 0 → len g ≤ order self → freq_dict_default self = true →
  increment g w self
  = (Return tt, set_freq_dict (bump w (freq_dict self) g) self).
Proof.
  intros Hw Hlen Hdef. unfold increment.
  rewrite bind_assert_true by (apply negb_true_iff, Z.eqb_neq, Hw).
  rewrite bind_get.
  rewrite bind_assert_true by (by apply Z.leb_le).
  unfold bump. rewrite Hdef. by destruct (freq_dict self !! g).
Qed.

(** An ngram longer than the order trips the assertion of [increment]
    and leaves the table as it was. *)
Lemma increment_too_long g w self :
  w ≠ 0 → order self < len g →
  increment g w self = (Raise AssertionError, self).
Proof.
  intros Hw Hlen. unfold increment.
  rewrite bind_assert_true by (apply negb_true_iff, Z.eqb_neq, Hw).
  rewrite bind_get.
  by rewrite bind_assert_false by (by apply Z.leb_gt).
Qed.

Lemma for_increment_ok l w self :
  w ≠ 0 → freq_dict_default self = true →
  (∀ g, g ∈ l → len g ≤ order self) →
  for_ l (λ g, increment g w) self = (Return tt, apply_increments w l self).
Proof.
  intros Hw. revert self.
  induction l as [|g l IH]; intros self Hdef Hlen; [reflexivity|].
  simpl. unfold bind. rewrite increment_ok; [|done| apply Hlen; by left |done].
  rewrite IH; [done|done|].
  intros g' Hg'. simpl. apply Hlen. by right.
Qed.

Lemma standard_ngrams_len (k : nat) pwd g :
  (1 ≤ k)%nat → g ∈ standard_ngrams PASSWORD_END k pwd → len g ≤ Z.of_nat k.
Proof.
  intros Hk. unfold standard_ngrams, len.
  rewrite !elem_of_app, !list_elem_of_fmap, list_elem_of_singleton.
  intros [(j & -> & Hj)|[(i & -> & Hi)| ->]].
  - apply elem_of_seq in Hj. rewrite length_take. lia.
  - rewrite length_take. lia.
  - unfold last_chars. rewrite length_app, length_drop. simpl. lia.
Qed.

(** For an order of at least 2, the standard trainer performs the
    increments of [standard_ngrams], in that order, and nothing else. *)
Lemma train_on_pwd_standard_ngrams self pwd w :
  2 ≤ order self →
  MarkovModel.train_on_pwd PASSWORD_END pwd w self
  = for_ (standard_ngrams PASSWORD_END (Z.to_nat (order self)) pwd)
         (λ g, increment g w) self.
Proof.
  intros Hord. unfold MarkovModel.train_on_pwd. rewrite bind_get.
  unfold standard_ngrams. rewrite for_app.
  apply bind_ext.
  { rewrite range_seq, for_fmap, <- fmap_S_seq, !for_fmap.
    replace (Z.to_nat (Z.min (order self) (len pwd + 1) - 1))
      with (Nat.min (Z.to_nat (order self) - 1) (length pwd))
      by (unfold len; lia).
    apply for_ext. intros j s' _.
    rewrite slice_prefix by lia. do 2 f_equal. lia. }
  intros _ s1. rewrite for_app. apply bind_ext.
  { rewrite range_seq, !for_fmap.
    replace (Z.to_nat (len pwd + 1 - order self - 0))
      with (length pwd + 1 - Z.to_nat (order self))%nat
      by (unfold len; lia).
    apply for_ext. intros i s' _.
    rewrite slice_window by lia. do 3 f_equal. lia. }
  intros _ s2. rewrite for_singleton.
  replace (- order self + 1) with (- (order self - 1)) by lia.
  rewrite slice_last by lia. do 4 f_equal. lia.
Qed.

(** Its effect on the table: every listed ngram gains the weight. *)
Lemma train_on_pwd_standard_effect self pwd w :
  2 ≤ order self → w ≠ 0 → freq_dict_default self = true →
  MarkovModel.train_on_pwd PASSWORD_END pwd w self
  = (Return tt,
     apply_increments w
       (standard_ngrams PASSWORD_END (Z.to_nat (order self)) pwd) self).
Proof.
  intros Hord Hw Hdef. rewrite train_on_pwd_standard_ngrams by done.
  apply for_increment_ok; [done..|].
  intros g Hg. apply standard_ngrams_len in Hg; lia.
Qed.

Lemma windows_of_width_one {A} (s : list A) :
  (λ i, take 1 (drop i s)) <$> seq 0 (length s) = (λ c, [c]) <$> s.
Proof.
  induction s as [|c s IH]; [reflexivity|].
  simpl. f_equal. rewrite <- fmap_S_seq, <- list_fmap_compose. exact IH.
Qed.

(** C1, at order 1. The third step slices [pwd[0:]], the whole password,
    where the trailing [order - 1 = 0] characters are meant: after the
    one-character windows were incremented, the ngram [pwd + END] is
    longer than the order, the assertion of [increment] fails, and the
    end sentinel alone is never incremented. *)
Theorem train_on_pwd_order_one self pwd w :
  order self = 1 → pwd ≠ [] → w ≠ 0 → freq_dict_default self = true →
  MarkovModel.train_on_pwd PASSWORD_END pwd w self
  = (Raise AssertionError, apply_increments w ((λ c, [c]) <$> pwd) self)
  ∧ standard_ngrams PASSWORD_END 1 pwd
    = ((λ c, [c]) <$> pwd) ++ [[PASSWORD_END]].
Proof.
  intros Hord Hne Hw Hdef. split.
  - unfold MarkovModel.train_on_pwd. rewrite bind_get, Hord.
    assert (range 1 (Z.min 1 (len pwd + 1)) = []) as ->.
    { unfold range, len. by replace (Z.to_nat _) with 0%nat by lia. }
    simpl for_ at 1. unfold bind at 1, ret at 1.
    unfold bind at 1.
    rewrite range_seq, !for_fmap.
    replace (Z.to_nat (len pwd + 1 - 1 - 0)) with (length pwd)
      by (unfold len; lia).
    erewrite for_ext; last first.
    { intros i s' _. rewrite slice_window by lia.
      replace (Z.to_nat (0 + Z.of_nat i)) with i by lia.
      change (Z.to_nat 1) with 1%nat. reflexivity. }
    rewrite <- (for_fmap (λ i, take 1 (drop i pwd)) _ (λ g, increment g w)).
    rewrite windows_of_width_one.
    rewrite for_increment_ok; [|done|done|].
    + change (- (1) + 1) with 0. rewrite slice_from by lia.
      change (Z.to_nat 0) with 0%nat. rewrite drop_0.
      rewrite increment_too_long; [done|done|].
      rewrite apply_increments_order, Hord.
      unfold len. rewrite length_app. simpl.
      destruct pwd; [done|]. simpl. lia.
    + intros g (c & -> & _)%list_elem_of_fmap. rewrite Hord. done.
  - unfold standard_ngrams, last_chars. simpl.
    replace (length pwd + 1 - 1)%nat with (length pwd) by lia.
    rewrite windows_of_width_one. do 2 f_equal.
    rewrite Nat.sub_0_r. by rewrite drop_all.
Qed.

(** ** Context truncation *)

(** For an order of at least 2 the truncation is as specified. *)
Lemma truncate_context_order_ge_2 self context :
  2 ≤ order self →
  truncate_context self context
  = if decide (order self ≤ len context)
    then last_chars (Z.to_nat (order self - 1)) context
    else context.
Proof.
  intros Hord. unfold truncate_context.
  destruct (Z.geb_spec (len context) (order self)); case_decide; try lia; [|done].
  apply slice_last. lia.
Qed.

(** C7, at order 1. The slice [context[-0:]] is the whole context, not its
    trailing [order - 1 = 0] characters: a context of one character or more
    is returned unchanged where the empty context is specified. *)
Theorem truncate_context_order_one self context :
  order self = 1 → context ≠ [] →
  truncate_context self context = context
  ∧ last_chars (Z.to_nat (order self - 1)) context = [].
Proof.
  intros Hord Hne. split.
  - unfold truncate_context. rewrite Hord.
    destruct (len context >=? 1); [|done].
    change (- (1 - 1)) with 0. by rewrite slice_from.
  - rewrite Hord. unfold last_chars. simpl.
    rewrite Nat.sub_0_r. apply drop_all.
Qed.

End trainer.

(** ** Smoothing strategies *)

Section smoother.
Import Smoother.
Implicit Types (self : Smoother.t) (answer : ndarray).

Lemma iadd_item_middle (pre rest : ndarray) (x : float64) (n : Z) :
  iadd_item (length pre) n (pre ++ x :: rest)
  = (Return tt, pre ++ add_int x n :: rest).
Proof.
  unfold iadd_item. rewrite list_lookup_middle by done.
  replace (length pre) with (length pre + 0)%nat at 1 by lia.
  by rewrite insert_app_r.
Qed.

Lemma itruediv_item_middle (pre rest : ndarray) (x : float64) (n : Z) :
  itruediv_item (length pre) n (pre ++ x :: rest)
  = (Return tt, pre ++ div_int x n :: rest).
Proof.
  unfold itruediv_item. rewrite list_lookup_middle by done.
  replace (length pre) with (length pre + 0)%nat at 1 by lia.
  by rewrite insert_app_r.
Qed.

Lemma sum_elems_step_middle self ctx (acc : Z) (pre rest : ndarray) x c :
  sum_elems_step self ctx acc (length pre, c) (pre ++ x :: rest)
  = (Return (acc + freq self (ctx ++ [c])),
     pre ++ add_int x (freq self (ctx ++ [c])) :: rest).
Proof.
  unfold sum_elems_step, bind. by rewrite iadd_item_middle.
Qed.

Lemma sum_elems_from self ctx (l : str) (i : nat) (pre rest : ndarray) (acc : Z) :
  length pre = i → length rest = length l →
  for_acc (enumerate_from i l) acc (sum_elems_step self ctx) (pre ++ rest)
  = (Return (acc + Zsum ((λ c, freq self (ctx ++ [c])) <$> l)),
     pre ++ zip_with add_int rest ((λ c, freq self (ctx ++ [c])) <$> l)).
Proof.
  revert i pre rest acc.
  induction l as [|c l IH]; intros i pre rest acc Hpre Hrest.
  - destruct rest; [|done]. simpl. unfold ret. by rewrite Z.add_0_r.
  - destruct rest as [|x rest]; [done|]. simpl in Hrest. subst i.
    cbn [enumerate_from for_acc]. unfold bind.
    rewrite sum_elems_step_middle.
    set (x' := add_int x _).
    rewrite (cons_middle x' pre rest), app_assoc.
    rewrite (IH (Datatypes.S (length pre)) (pre ++ [x']) rest)
      by (rewrite ?length_app; simpl; lia).
    rewrite <- app_assoc. simpl. by rewrite Z.add_assoc.
Qed.

(** [sum_elems] on a vector of the length of the alphabet: every entry
    gains the smoothed count of its character, and their sum is returned. *)
Lemma sum_elems_spec self ctx answer :
  length answer = length (alphabet self) →
  sum_elems self ctx answer
  = (Return (total_mass self ctx), zip_with add_int answer (next_freqs self ctx)).
Proof.
  intros Hlen. unfold sum_elems, enumerate.
  by rewrite (sum_elems_from self ctx _ 0 [] answer 0).
Qed.

Lemma divide_from (total : Z) (n i : nat) (pre rest : ndarray) :
  length pre = i → length rest = n →
  for_ (seq i n) (λ i, itruediv_item i total) (pre ++ rest)
  = (Return tt, pre ++ ((λ x, div_int x total) <$> rest)).
Proof.
  revert i pre rest.
  induction n as [|n IH]; intros i pre rest Hpre Hrest.
  - by destruct rest.
  - destruct rest as [|x rest]; [done|]. simpl in Hrest. subst i.
    cbn [seq for_]. unfold bind. rewrite itruediv_item_middle.
    rewrite (cons_middle (div_int x total) pre rest), app_assoc.
    rewrite (IH (Datatypes.S (length pre)) (pre ++ [div_int x total]) rest)
      by (rewrite ?length_app; simpl; lia).
    by rewrite <- app_assoc.
Qed.

Lemma divide_all_spec self (total : Z) answer :
  length answer = length (alphabet self) →
  divide_all self total answer = (Return tt, (λ x, div_int x total) <$> answer).
Proof.
  intros Hlen. unfold divide_all.
  by rewrite (divide_from total _ 0 [] answer).
Qed.

Lemma assert_shape_ok self answer :
  length answer = length (alphabet self) →
  assert_shape self answer = (Return tt, answer).
Proof.
  intros Hlen. unfold assert_shape. rewrite bind_get.
  by rewrite bool_decide_eq_true_2.
Qed.

Lemma assert_shape_fail self answer :
  length answer ≠ length (alphabet self) →
  assert_shape self answer = (Raise AssertionError, answer).
Proof.
  intros Hlen. unfold assert_shape. rewrite bind_get.
  by rewrite bool_decide_eq_false_2.
Qed.

Lemma length_next_freqs self ctx :
  length (next_freqs self ctx) = length (alphabet self).
Proof. unfold next_freqs. by rewrite length_fmap. Qed.

Lemma length_zeros n : length (zeros n) = n.
Proof. apply length_replicate. Qed.

Lemma length_summed self ctx answer :
  length answer = length (alphabet self) →
  length (zip_with add_int answer (next_freqs self ctx)) = length (alphabet self).
Proof.
  intros Hlen. rewrite length_zip_with_l_eq; [done|].
  by rewrite length_next_freqs.
Qed.

Lemma zip_with_fmap_compose {A B C D} (f : A → B → C) (g : C → D)
    (l : list A) (k : list B) :
  g <$> zip_with f l k = zip_with (λ a b, g (f a b)) l k.
Proof.
  revert k. induction l as [|a l IH]; intros [|b k]; simpl; [done..|].
  by rewrite IH.
Qed.

(** What [predict] of the strategies without backoff computes. *)
Lemma predict_plain self ctx answer :
  cls self ≠ BackoffSmoother →
  length answer = length (alphabet self) →
  predict self ctx answer
  = (Return tt,
     zip_with (λ a f, div_int (add_int a f) (total_mass self ctx))
              answer (next_freqs self ctx)).
Proof.
  intros Hcls Hlen. unfold predict, bind.
  rewrite assert_shape_ok by done.
  assert (_predict self ctx answer
          = bind (sum_elems self ctx) (λ t, divide_all self t) answer) as ->.
  { destruct ctx; simpl; by destruct (cls self). }
  unfold bind. rewrite sum_elems_spec by done.
  rewrite divide_all_spec by (by apply length_summed).
  by rewrite zip_with_fmap_compose.
Qed.

Lemma add_int_zero (f : Z) : add_int (Finite (Q2Qc 0)) f = Finite (of_int f).
Proof. simpl. f_equal. apply Qcplus_0_l. Qed.

Lemma zip_with_zeros {B} (g : float64 → B) (n : nat) (fs : list Z) :
  length fs = n →
  zip_with (λ a f, g (add_int a f)) (zeros n) fs
  = (λ f, g (Finite (of_int f))) <$> fs.
Proof.
  intros <-. unfold zeros. induction fs as [|f fs IH]; [done|].
  cbn [length replicate zip_with]. rewrite add_int_zero, IH. done.
Qed.

End smoother.

(** ** The strategies without backoff *)

Section plain_strategies.
Import Smoother.
Implicit Types (self : Smoother.t) (answer : ndarray).

Lemma of_int_nonzero (t : Z) : t ≠ 0 → of_int t ≠ Q2Qc 0.
Proof.
  intros Ht Heq. apply Ht, Z2Qc_inj. rewrite Z2Qc_inj_0. exact Heq.
Qed.

Lemma div_int_nonzero (q : Qc) (t : Z) :
  t ≠ 0 → div_int (Finite q) t = Finite (q / of_int t)%Qc.
Proof. intros Ht. simpl. by destruct (Z.eqb_spec t 0). Qed.

Lemma div_int_by_zero_not_finite (x : float64) : is_finite (div_int x 0) = false.
Proof. destruct x as [q| |]; simpl; [|done..]. by destruct (Qc_is_zero q). Qed.

(** On a zero vector the strategies without backoff return the
    distribution of the context. *)
Lemma predict_plain_zeros self ctx :
  cls self ≠ BackoffSmoother →
  predict self ctx (zeros (length (alphabet self)))
  = (Return tt, distribution self ctx).
Proof.
  intros Hplain. rewrite predict_plain by (done || apply length_zeros).
  f_equal. unfold distribution.
  apply (zip_with_zeros (λ x, div_int x (total_mass self ctx))).
  apply length_next_freqs.
Qed.

(** C10, as the code has it. For the strategies [none] and [additive],
    [predict] adds each smoothed count into the entry already in the out
    vector and then divides every entry by the sum of the counts alone:
    entry [i] ends as
    [(answer[i] + freq(context + c_i)) / sum_j freq(context + c_j)]. On a
    zero vector the result is the distribution of the context.
    [probability_next_char] of a model bound to such a strategy, with an
    alphabet of the same length, allocates a zero vector on each call and
    so returns the entry of that distribution (of the truncated context)
    at the index of the character. *)
Theorem predict_accumulates_into_answer self ctx answer :
  cls self = NoSmoothingSmoother ∨ cls self = AdditiveSmoothingSmoother →
  length answer = length (alphabet self) →
  predict self ctx answer
  = (Return tt,
     zip_with (λ a f, div_int (add_int a f) (total_mass self ctx))
              answer (next_freqs self ctx))
  ∧ predict self ctx (zeros (length (alphabet self)))
    = (Return tt, distribution self ctx)
  ∧ (∀ (m : MarkovModel.t) context nc idx,
       MarkovModel.smoother m = Some self →
       length (MarkovModel.alphabet m) = length (alphabet self) →
       MarkovModel.chars_to_index m !! nc = Some idx →
       MarkovModel.probability_next_char m context nc
       = match distribution self (MarkovModel.truncate_context m context) !! idx with
         | Some p => Return p
         | None => Raise IndexError
         end).
Proof.
  intros Hcls Hlen.
  assert (cls self ≠ BackoffSmoother) as Hplain by (destruct Hcls; congruence).
  split; [by apply predict_plain|]. split; [by apply predict_plain_zeros|].
  intros m context nc idx Hsm Hlenm Hidx.
  unfold MarkovModel.probability_next_char. rewrite Hidx.
  unfold MarkovModel.predict. rewrite Hsm, Hlenm.
  by rewrite predict_plain_zeros.
Qed.

Lemma freq_additive self g :
  cls self = AdditiveSmoothingSmoother →
  freq self g = count (freq_dict self) g + amount self.
Proof.
  intros Hcls. unfold freq, count. rewrite Hcls.
  by destruct (freq_dict self !! g).
Qed.

Lemma freq_none self g :
  cls self = NoSmoothingSmoother → freq self g = count (freq_dict self) g.
Proof.
  intros Hcls. unfold freq, count. rewrite Hcls.
  by destruct (freq_dict self !! g).
Qed.

Lemma Zsum_add_const (a : Z) (g : N → Z) (l : str) :
  Zsum ((λ c, g c + a) <$> l) = Zsum (g <$> l) + a * len l.
Proof.
  unfold len. induction l as [|c l IH]; [simpl; lia|].
  rewrite !fmap_cons. unfold Zsum in *. cbn [foldr length].
  rewrite IH. lia.
Qed.

Lemma total_mass_additive self ctx :
  cls self = AdditiveSmoothingSmoother →
  total_mass self ctx
  = raw_total (freq_dict self) (alphabet self) ctx
    + amount self * len (alphabet self).
Proof.
  intros Hcls. unfold total_mass, next_freqs, raw_total.
  rewrite <- Zsum_add_const. f_equal.
  apply list_fmap_ext. intros _ c _. by apply freq_additive.
Qed.

Lemma total_mass_none self ctx :
  cls self = NoSmoothingSmoother →
  total_mass self ctx = raw_total (freq_dict self) (alphabet self) ctx.
Proof.
  intros Hcls. unfold total_mass, next_freqs, raw_total. f_equal.
  apply list_fmap_ext. intros _ c _. by apply freq_none.
Qed.


End plain_strategies.

(** ** A zero total without backoff *)

Section zero_total.
Import Smoother.
Implicit Types (self : Smoother.t) (answer : ndarray).

Lemma div_int_zero_by_zero : div_int (Finite (of_int 0)) 0 = NaN.
Proof.
  unfold div_int, Qc_is_zero.
  rewrite bool_decide_eq_true_2 by apply Z2Qc_inj_0. reflexivity.
Qed.

Lemma Forall_zip_with_not_finite answer (fs : list Z) :
  Forall (λ x, is_finite x = false)
         (zip_with (λ a f, div_int (add_int a f) 0) answer fs).
Proof.
  revert fs. induction answer as [|a answer IH]; intros [|f fs]; simpl;
    try by constructor.
  constructor; [apply div_int_by_zero_not_finite | apply IH].
Qed.

(** C6, as the code has it. For the strategy [none], and for [additive]
    with amount 0, [predict] on a context whose raw total is zero raises
    nothing: it returns after dividing every entry by zero, so no entry of
    the result is a finite number, and on a zero out vector where every
    count of the context is zero every entry is NaN. *)
Theorem predict_zero_total_returns self ctx answer :
  cls self = NoSmoothingSmoother
  ∨ (cls self = AdditiveSmoothingSmoother ∧ amount self = 0) →
  raw_total (freq_dict self) (alphabet self) ctx = 0 →
  length answer = length (alphabet self) →
  ∃ v : ndarray,
    predict self ctx answer = (Return tt, v)
    ∧ length v = length (alphabet self)
    ∧ Forall (λ x, is_finite x = false) v
    ∧ ((∀ c, c ∈ alphabet self → count (freq_dict self) (ctx ++ [c]) = 0) →
       answer = zeros (length (alphabet self)) →
       v = replicate (length (alphabet self)) NaN).
Proof.
  intros Hcls Hraw Hlen.
  assert (cls self ≠ BackoffSmoother) as Hplain
    by (destruct Hcls as [?|[? _]]; congruence).
  assert (total_mass self ctx = 0) as Htotal.
  { destruct Hcls as [Hn|[Ha Ham]].
    - by rewrite total_mass_none.
    - rewrite total_mass_additive by done. rewrite Hraw, Ham. lia. }
  assert (∀ c, freq self (ctx ++ [c]) = count (freq_dict self) (ctx ++ [c]))
    as Hfreq.
  { intros c. destruct Hcls as [Hn|[Ha Ham]].
    - by apply freq_none.
    - rewrite freq_additive by done. rewrite Ham. lia. }
  eexists. split; [by apply predict_plain|].
  rewrite Htotal.
  split; [rewrite length_zip_with_l_eq; by rewrite ?length_next_freqs|].
  split; [apply Forall_zip_with_not_finite|].
  intros Hzero ->.
  rewrite (zip_with_zeros (λ x, div_int x 0)) by apply length_next_freqs.
  unfold next_freqs. rewrite <- list_fmap_compose.
  rewrite <- (length_fmap (λ _, NaN) (alphabet self)) at 1.
  clear Hlen Hraw Htotal. induction (alphabet self) as [|c l IH]; [done|].
  rewrite !fmap_cons. cbn [length replicate]. f_equal.
  - simpl. rewrite Hfreq, Hzero by left. apply div_int_zero_by_zero.
  - rewrite length_fmap in IH. rewrite length_fmap.
    apply IH. intros c' Hc'. apply Hzero. by right.
Qed.

End zero_total.

(** ** The backoff strategy *)

Section backoff.
Import Smoother.
Implicit Types (self : Smoother.t) (answer : ndarray).

Lemma _predict_backoff_unfold self ctx answer :
  cls self = BackoffSmoother →
  _predict self ctx answer
  = bind (sum_elems self ctx) (λ total_sum,
      if total_sum =? 0 then
        bind fill_zero (λ _,
          match ctx with
          | [] => raise AssertionError
          | _ :: ctx_tail => bind (assert_shape self) (λ _, _predict self ctx_tail)
          end)
      else divide_all self total_sum) answer.
Proof. intros Hcls. destruct ctx; simpl; by rewrite Hcls. Qed.

(** A nonzero total is normalised at once. *)
Lemma predict_backoff_nonzero self ctx answer :
  cls self = BackoffSmoother → total_mass self ctx ≠ 0 →
  length answer = length (alphabet self) →
  predict self ctx answer
  = (Return tt,
     zip_with (λ a f, div_int (add_int a f) (total_mass self ctx))
              answer (next_freqs self ctx)).
Proof.
  intros Hcls Htotal Hlen. unfold predict, bind.
  rewrite assert_shape_ok by done.
  rewrite _predict_backoff_unfold by done.
  unfold bind. rewrite sum_elems_spec by done.
  destruct (Z.eqb_spec (total_mass self ctx) 0); [done|].
  rewrite divide_all_spec by (by apply length_summed).
  by rewrite zip_with_fmap_compose.
Qed.

Lemma predict_backoff_nonzero_zeros self ctx :
  cls self = BackoffSmoother → total_mass self ctx ≠ 0 →
  predict self ctx (zeros (length (alphabet self)))
  = (Return tt, distribution self ctx).
Proof.
  intros Hcls Htotal.
  rewrite predict_backoff_nonzero by (done || apply length_zeros).
  f_equal. unfold distribution.
  apply (zip_with_zeros (λ x, div_int x (total_mass self ctx))).
  apply length_next_freqs.
Qed.

(** A zero total on a non-empty context: the vector is cleared and the
    prediction restarts on the tail of the context. *)
Lemma predict_backoff_zero_cons self c ctx answer :
  cls self = BackoffSmoother → total_mass self (c :: ctx) = 0 →
  length answer = length (alphabet self) →
  predict self (c :: ctx) answer
  = predict self ctx (zeros (length (alphabet self))).
Proof.
  intros Hcls Htotal Hlen. unfold predict at 1. unfold bind.
  rewrite assert_shape_ok by done.
  rewrite _predict_backoff_unfold by done.
  unfold bind. rewrite sum_elems_spec by done.
  rewrite Htotal. simpl (0 =? 0). cbv iota.
  unfold fill_zero. rewrite length_summed by done.
  reflexivity.
Qed.

(** A zero total on the empty context trips the assertion; the vector
    was cleared before. *)
Lemma predict_backoff_zero_nil self answer :
  cls self = BackoffSmoother → total_mass self [] = 0 →
  length answer = length (alphabet self) →
  predict self [] answer
  = (Raise AssertionError, zeros (length (alphabet self))).
Proof.
  intros Hcls Htotal Hlen. unfold predict. unfold bind.
  rewrite assert_shape_ok by done.
  rewrite _predict_backoff_unfold by done.
  unfold bind. rewrite sum_elems_spec by done.
  rewrite Htotal. simpl (0 =? 0). cbv iota.
  unfold fill_zero, raise. by rewrite length_summed.
Qed.

(** C3. Under the backoff strategy, [predict] on a non-empty context
    whose thresholded total is zero returns what [predict] returns on the
    context without its leftmost character (on a zero vector); so for a
    two-character context of zero total whose one-character suffix has a
    nonzero total, it returns the distribution of that suffix, as the
    direct prediction on the suffix does. The total of a context is the
    sum, over the characters of the alphabet, of the count (0 when missing)
    plus the amount, taken as 0 when it is below the threshold. *)
Theorem backoff_predict_falls_back self ctx answer :
  cls self = BackoffSmoother → ctx ≠ [] → total_mass self ctx = 0 →
  length answer = length (alphabet self) →
  predict self ctx answer
  = predict self (slice ctx (Some 1) None) (zeros (length (alphabet self)))
  ∧ (∀ c1 c2, ctx = [c1; c2] → total_mass self [c2] ≠ 0 →
     predict self [c1; c2] answer = (Return tt, distribution self [c2])
     ∧ predict self [c2] (zeros (length (alphabet self)))
       = (Return tt, distribution self [c2]))
  ∧ (∀ ctx',
       total_mass self ctx'
       = Zsum ((λ c, let v := count (freq_dict self) (ctx' ++ [c]) + amount self in
                     if v <? threshold self then 0 else v) <$> alphabet self)).
Proof.
  intros Hcls Hne Htotal Hlen.
  destruct ctx as [|c ctx]; [done|]. rewrite slice_tail.
  split; [by apply predict_backoff_zero_cons|].
  split; [|intros ctx'; unfold total_mass, next_freqs; f_equal;
           apply list_fmap_ext; intros _ c' _; simpl; unfold freq, count;
           rewrite Hcls; by destruct (freq_dict self !! (ctx' ++ [c']))].
  intros c1 c2 [= -> ->] Hsuffix.
  rewrite predict_backoff_zero_cons by done.
  split; by apply predict_backoff_nonzero_zeros.
Qed.

End backoff.

(** ** The backoff-oriented trainer *)

Section backoff_trainer.
Variable PASSWORD_END : char.
Import MarkovModel.

Lemma elem_of_concat {A} (x : A) (ll : list (list A)) :
  x ∈ concat ll ↔ ∃ l, x ∈ l ∧ l ∈ ll.
Proof.
  induction ll as [|l ll IH]; simpl.
  - split; [by intros ?%elem_of_nil | by intros (? & _ & ?%elem_of_nil)].
  - rewrite elem_of_app, IH. split.
    + intros [Hx|(l' & Hx & Hl')]; [exists l | exists l']; split; try done;
        [by left | by right].
    + intros (l' & Hx & [-> | Hl']%elem_of_cons); [by left|].
      right. by exists l'.
Qed.

(** The backoff-oriented trainer performs the increments of
    [backoff_ngrams], in that order, and nothing else. *)
Lemma train_on_pwd_backoff_ngrams self pwd w :
  BackoffMarkovModel.train_on_pwd PASSWORD_END pwd w self
  = for_ (backoff_ngrams PASSWORD_END (Z.to_nat (order self)) pwd)
         (λ g, increment g w) self.
Proof.
  unfold BackoffMarkovModel.train_on_pwd. rewrite bind_get.
  unfold backoff_ngrams. rewrite for_concat.
  change ([PASSWORD_START] ++ pwd ++ [PASSWORD_END])
    with (PASSWORD_START :: pwd ++ [PASSWORD_END]).
  set (pwd_norm := PASSWORD_START :: pwd ++ [PASSWORD_END]).
  rewrite range_seq, !for_fmap.
  replace (Z.to_nat (len pwd_norm - 0)) with (length pwd_norm)
    by (unfold len; lia).
  apply for_ext. intros p s' Hp%elem_of_seq.
  rewrite range_seq, <- fmap_S_seq, !for_fmap.
  replace (Z.to_nat (Z.min (order self) (len pwd_norm - (0 + Z.of_nat p)) - 0))
    with (Nat.min (Z.to_nat (order self)) (length pwd_norm - p))
    by (unfold len; lia).
  apply for_ext. intros oi s'' _.
  replace (0 + Z.of_nat p + 1 + (0 + Z.of_nat oi))
    with ((0 + Z.of_nat p) + Z.of_nat (Datatypes.S oi)) by lia.
  rewrite slice_window by lia. do 3 f_equal; lia.
Qed.

Lemma backoff_ngrams_len (k : nat) pwd g :
  g ∈ backoff_ngrams PASSWORD_END k pwd → len g ≤ Z.of_nat k.
Proof.
  unfold backoff_ngrams, len.
  intros (l & Hg & (p & -> & Hp)%list_elem_of_fmap)%elem_of_concat.
  apply list_elem_of_fmap in Hg as (L & -> & HL%elem_of_seq).
  rewrite length_take. lia.
Qed.

(** For an order of at least 1 the end sentinel alone is among them. *)
Lemma backoff_ngrams_end (k : nat) pwd :
  (1 ≤ k)%nat → [PASSWORD_END] ∈ backoff_ngrams PASSWORD_END k pwd.
Proof.
  intros Hk. unfold backoff_ngrams.
  set (pwd_norm := PASSWORD_START :: pwd ++ [PASSWORD_END]).
  assert (length pwd_norm = Datatypes.S (Datatypes.S (length pwd))) as Hlen.
  { unfold pwd_norm. simpl. rewrite length_app. simpl. lia. }
  apply elem_of_concat.
  exists ((λ L, take L (drop (Datatypes.S (length pwd)) pwd_norm))
            <$> seq 1 (Nat.min k (length pwd_norm - Datatypes.S (length pwd)))).
  split.
  - apply list_elem_of_fmap. exists 1%nat. split.
    + unfold pwd_norm. simpl. rewrite drop_app_length. reflexivity.
    + apply elem_of_seq. lia.
  - apply list_elem_of_fmap. exists (Datatypes.S (length pwd)). split; [done|].
    apply elem_of_seq. lia.
Qed.

Lemma train_on_pwd_backoff_effect self pwd w :
  0 ≤ order self → w ≠ 0 → freq_dict_default self = true →
  BackoffMarkovModel.train_on_pwd PASSWORD_END pwd w self
  = (Return tt,
     apply_increments w
       (backoff_ngrams PASSWORD_END (Z.to_nat (order self)) pwd) self).
Proof.
  intros Hord Hw Hdef. rewrite train_on_pwd_backoff_ngrams.
  apply for_increment_ok; [done..|].
  intros g Hg%backoff_ngrams_len. lia.
Qed.

End backoff_trainer.

(** ** Counts after training with positive weights *)

Section counts.
Implicit Types (d : gmap str Z) (g : str).

Lemma count_bump w d g g' :
  count (bump w d g) g' = if decide (g = g') then count d g + w else count d g'.
Proof.
  unfold count, bump. case_decide as Hg.
  - subst g'. by rewrite lookup_insert_eq.
  - by rewrite lookup_insert_ne.
Qed.

Lemma count_foldl_bump_ge w d l g :
  0 ≤ w → count d g ≤ count (foldl (bump w) d l) g.
Proof.
  intros Hw. revert d. induction l as [|g' l IH]; intros d; simpl; [lia|].
  etrans; [|apply IH]. rewrite count_bump. case_decide; subst; lia.
Qed.

Lemma count_foldl_bump_elem w d l g :
  0 ≤ w → g ∈ l → count d g + w ≤ count (foldl (bump w) d l) g.
Proof.
  intros Hw. revert d. induction l as [|g' l IH]; intros d Hg; simpl.
  - by apply elem_of_nil in Hg.
  - apply elem_of_cons in Hg as [->|Hg].
    + etrans; [|by apply count_foldl_bump_ge].
      rewrite count_bump. by rewrite decide_True.
    + etrans; [|by apply IH]. rewrite count_bump. case_decide; subst; lia.
Qed.

Lemma Zsum_nonneg (l : list Z) : Forall (λ x, 0 ≤ x) l → 0 ≤ Zsum l.
Proof. induction 1; simpl; lia. Qed.

Lemma Zsum_pos (l : list Z) (x : Z) :
  Forall (λ x, 0 ≤ x) l → x ∈ l → 0 < x → 0 < Zsum l.
Proof.
  induction 1 as [|y l Hy Hl IH]; intros Hx Hpos.
  - by apply elem_of_nil in Hx.
  - simpl. apply Zsum_nonneg in Hl as Hsum.
    apply elem_of_cons in Hx as [->|Hx]; [lia|]. specialize (IH Hx Hpos). lia.
Qed.

End counts.

Section settings.
Import MarkovModel.

Lemma same_settings_refl m : same_settings m m.
Proof. by repeat split. Qed.

Lemma same_settings_trans m1 m2 m3 :
  same_settings m1 m2 → same_settings m2 m3 → same_settings m1 m3.
Proof.
  unfold same_settings. intros (?&?&?&?&?&?&?) (?&?&?&?&?&?&?).
  repeat split; congruence.
Qed.

Lemma apply_increments_same_settings w l m :
  same_settings m (apply_increments w l m).
Proof.
  unfold apply_increments. revert m.
  induction l as [|g l IH]; intros m; simpl; [apply same_settings_refl|].
  eapply same_settings_trans; [|apply IH]. by repeat split.
Qed.

End settings.

(** ** Training a backoff model and predicting with it *)

Section backoff_model.
Variable PASSWORD_END : char.
Import MarkovModel.

Lemma construct_backoff_inv cfg kind ord m0 :
  construct PASSWORD_END ClsBackoffMarkovModel cfg kind ord = Return m0 →
  cls m0 = ClsBackoffMarkovModel ∧ smoothing m0 = "backoff"%string
  ∧ order m0 = ord ∧ config m0 = cfg ∧ freq_dict_default m0 = true
  ∧ freq_dict m0 = ∅ ∧ smoother m0 = None
  ∧ alphabet m0 = sorted (Config.char_bag cfg) ++ [PASSWORD_START]
  ∧ PASSWORD_END ∈ sorted (Config.char_bag cfg).
Proof.
  unfold construct, BackoffMarkovModel.init, MarkovModel.init.
  case_bool_decide as Hend; [|done].
  destruct (String.eqb_spec kind "backoff"); [|done].
  intros [= <-]. subst kind. by repeat split.
Qed.

(** The training loop of a backoff model on positive weights goes through;
    no count decreases, every ngram of a normalized training string gains
    the weight of its password at least, and the count of the end sentinel
    alone grows by the total weight at least. *)
Lemma train_loop_backoff pwds m :
  cls m = ClsBackoffMarkovModel → 1 ≤ order m → freq_dict_default m = true →
  (∀ pf, pf ∈ pwds → 0 < pf.2) →
  ∃ m', for_ pwds (λ pf, virtual_train_on_pwd PASSWORD_END pf.1 pf.2) m
        = (Return tt, m')
        ∧ same_settings m m'
        ∧ (∀ g, count (freq_dict m) g ≤ count (freq_dict m') g)
        ∧ (∀ pf g, pf ∈ pwds →
             g ∈ backoff_ngrams PASSWORD_END (Z.to_nat (order m)) pf.1 →
             count (freq_dict m) g + pf.2 ≤ count (freq_dict m') g)
        ∧ count (freq_dict m) [PASSWORD_END] + total_weight pwds
          ≤ count (freq_dict m') [PASSWORD_END].
Proof.
  revert m. induction pwds as [|[pwd w] pwds IH]; intros m Hcls Hord Hdef Hpos.
  - exists m. split; [done|]. split; [apply same_settings_refl|].
    split; [done|]. split; [by intros pf g ?%elem_of_nil|].
    unfold total_weight. simpl. lia.
  - assert (0 < w) as Hw by (apply (Hpos (pwd, w)); by left).
    cbn [for_]. unfold bind.
    unfold virtual_train_on_pwd at 1. rewrite bind_get, Hcls.
    simpl fst. simpl snd.
    rewrite train_on_pwd_backoff_effect by (done || lia).
    set (m1 := apply_increments w _ m).
    pose proof (apply_increments_same_settings w
      (backoff_ngrams PASSWORD_END (Z.to_nat (order m)) pwd) m) as Hsame.
    fold m1 in Hsame.
    destruct Hsame as (Hc & Ha & Hi & Hs & Hd & Ho & Hcf).
    destruct (IH m1) as (m' & Hrun & Hsame' & Hmono & Hngram & Hend).
    { congruence. } { rewrite Ho. done. } { congruence. }
    { intros pf Hpf. apply Hpos. by right. }
    exists m'. split; [done|]. split.
    { eapply same_settings_trans; [|apply Hsame']. by repeat split. }
    assert (freq_dict m1 = foldl (bump w) (freq_dict m)
              (backoff_ngrams PASSWORD_END (Z.to_nat (order m)) pwd)) as Hfd
      by apply apply_increments_freq_dict.
    split; [|split].
    + intros g. etrans; [|apply Hmono]. rewrite Hfd.
      apply count_foldl_bump_ge. lia.
    + intros pf g [->|Hpf]%elem_of_cons Hg.
      * etrans; [|apply Hmono]. rewrite Hfd.
        apply count_foldl_bump_elem; [lia | exact Hg].
      * etrans; [|apply (Hngram pf g Hpf); by rewrite Ho].
        apply Z.add_le_mono_r. rewrite Hfd.
        apply count_foldl_bump_ge. lia.
    + etrans; [|apply Hend]. unfold total_weight.
      rewrite fmap_cons. unfold Zsum. cbn [foldr snd]. rewrite Hfd.
      pose proof (count_foldl_bump_elem w (freq_dict m)
        (backoff_ngrams PASSWORD_END (Z.to_nat (order m)) pwd)
        [PASSWORD_END]) as Hge.
      specialize (Hge ltac:(lia) ltac:(apply backoff_ngrams_end; lia)).
      lia.
Qed.

End backoff_model.

Section backoff_prediction.
Variable PASSWORD_END : char.
Import MarkovModel.

Lemma freq_backoff (s : Smoother.t) g :
  Smoother.cls s = Smoother.BackoffSmoother →
  Smoother.freq s g
  = if count (Smoother.freq_dict s) g + Smoother.amount s <? Smoother.threshold s
    then 0 else count (Smoother.freq_dict s) g + Smoother.amount s.
Proof.
  intros Hcls. unfold Smoother.freq, count. rewrite Hcls.
  by destruct (Smoother.freq_dict s !! g).
Qed.

(** With a nonzero total on the empty context, backoff prediction returns
    on every context: it settles on the longest suffix of the context
    whose total is not zero. *)
Lemma predict_backoff_longest_suffix (s : Smoother.t) ctx :
  Smoother.cls s = Smoother.BackoffSmoother → total_mass s [] ≠ 0 →
  ∃ k : nat,
    (k ≤ length ctx)%nat
    ∧ total_mass s (drop k ctx) ≠ 0
    ∧ (∀ j : nat, (j < k)%nat → total_mass s (drop j ctx) = 0)
    ∧ Smoother.predict s ctx (zeros (length (Smoother.alphabet s)))
      = (Return tt, distribution s (drop k ctx)).
Proof.
  intros Hcls Hnil. induction ctx as [|c ctx IH].
  - exists 0%nat. split; [done|]. split; [done|]. split; [lia|].
    by apply predict_backoff_nonzero_zeros.
  - destruct (decide (total_mass s (c :: ctx) = 0)) as [Hz|Hnz].
    + destruct IH as (k & Hk & Hnzk & Hbelow & Hrun).
      exists (Datatypes.S k). split; [simpl; lia|]. split; [done|]. split.
      * intros [|j] Hj; [done|]. apply Hbelow. lia.
      * rewrite predict_backoff_zero_cons by (done || apply length_zeros).
        exact Hrun.
    + exists 0%nat. split; [lia|]. split; [done|]. split; [lia|].
      by apply predict_backoff_nonzero_zeros.
Qed.

Lemma predict_backoff_returns (s : Smoother.t) ctx (answer : ndarray) :
  Smoother.cls s = Smoother.BackoffSmoother → total_mass s [] ≠ 0 →
  length answer = length (Smoother.alphabet s) →
  ∃ v : ndarray, Smoother.predict s ctx answer = (Return tt, v).
Proof.
  intros Hcls Hnil Hlen.
  destruct ctx as [|c ctx]; [eexists; by apply predict_backoff_nonzero|].
  destruct (decide (total_mass s (c :: ctx) = 0)) as [Hz|Hnz].
  - rewrite predict_backoff_zero_cons by done.
    destruct (predict_backoff_longest_suffix s ctx) as (k & _ & _ & _ & ->);
      eauto.
  - eexists. by apply predict_backoff_nonzero.
Qed.

(** C4, as the code has it. A backoff model of order at least 1, trained
    by the backoff-oriented trainer on at least one pair, all weights
    positive, with an amount of at least 0 and a threshold of at most the
    total weight plus the amount: training goes through; every ngram of a
    normalized training string, of length 1 in particular, has nonzero mass
    under the lookup of the backoff smoother when the weight of its password
    plus the amount reaches the threshold, and so has the end sentinel
    alone; hence the empty context has a nonzero total and prediction
    returns on every context: on a zero vector it returns the distribution
    of the longest suffix of the context whose total is not zero (every
    longer suffix has a zero total), backing off at most to the empty
    context. Whenever the empty context is reached with a zero total, the
    assertion fails. *)
Theorem backoff_training_defines_predictions cfg kind ord pwds m0 :
  construct PASSWORD_END ClsBackoffMarkovModel cfg kind ord = Return m0 →
  1 ≤ ord → pwds ≠ [] → (∀ pf, pf ∈ pwds → 0 < pf.2) →
  0 ≤ Config.additive_smoothing_amount cfg →
  Config.backoff_smoothing_threshold cfg
    ≤ total_weight pwds + Config.additive_smoothing_amount cfg →
  (∃ m s,
     train PASSWORD_END pwds m0 = (Return tt, m)
     ∧ smoother m = Some s
     ∧ Smoother.cls s = Smoother.BackoffSmoother
     ∧ (∀ pf g, pf ∈ pwds →
          g ∈ backoff_ngrams PASSWORD_END (Z.to_nat ord) pf.1 →
          Config.backoff_smoothing_threshold cfg
            ≤ pf.2 + Config.additive_smoothing_amount cfg →
          Smoother.freq s g ≠ 0)
     ∧ Smoother.freq s [PASSWORD_END] ≠ 0
     ∧ total_mass s [] ≠ 0
     ∧ (∀ ctx (answer : ndarray),
          length answer = length (Smoother.alphabet s) →
          ∃ v : ndarray, Smoother.predict s ctx answer = (Return tt, v))
     ∧ (∀ ctx, ∃ k : nat,
          (k ≤ length ctx)%nat
          ∧ total_mass s (drop k ctx) ≠ 0
          ∧ (∀ j : nat, (j < k)%nat → total_mass s (drop j ctx) = 0)
          ∧ Smoother.predict s ctx (zeros (length (Smoother.alphabet s)))
            = (Return tt, distribution s (drop k ctx))))
  ∧ (∀ (s : Smoother.t) (answer : ndarray),
       Smoother.cls s = Smoother.BackoffSmoother → total_mass s [] = 0 →
       length answer = length (Smoother.alphabet s) →
       Smoother.predict s [] answer
       = (Raise AssertionError, zeros (length (Smoother.alphabet s)))).
Proof.
  intros Hcons Hord Hne Hpos Hamount Hthreshold.
  split; [|intros s answer; apply predict_backoff_zero_nil].
  apply construct_backoff_inv in Hcons
    as (Hcls & Hkind & Horder & Hcfg & Hdef & Hempty & _ & _ & Hend).
  destruct (train_loop_backoff PASSWORD_END pwds m0)
    as (m' & Hrun & Hsame & Hmono & Hngram & Hcount); [done|lia|done|done|].
  destruct Hsame as (_ & _ & _ & Hkind' & _ & _ & Hcfg').
  set (s := Smoother.init Smoother.BackoffSmoother (freq_dict m') (config m')).
  assert (make_smoother m' = Return s) as Hmake.
  { unfold make_smoother. by rewrite Hkind', Hkind. }
  exists (set_smoother (Some s) m'), s.
  assert (0 < total_weight pwds) as Hweight.
  { unfold total_weight. destruct pwds as [|pf pwds]; [done|].
    apply (Zsum_pos _ pf.2).
    - apply Forall_fmap, Forall_forall. intros pf' Hpf'. simpl.
      specialize (Hpos pf' Hpf'). lia.
    - rewrite fmap_cons. by left.
    - apply Hpos. by left. }
  assert (∀ g, 0 ≤ count (freq_dict m') g) as Hnonneg.
  { intros g. etrans; [|apply Hmono]. by rewrite Hempty. }
  assert (total_weight pwds ≤ count (freq_dict m') [PASSWORD_END]) as Hlow.
  { rewrite Hempty in Hcount. unfold count at 1 in Hcount.
    rewrite lookup_empty in Hcount. simpl in Hcount. lia. }
  assert (Smoother.amount s = Config.additive_smoothing_amount cfg) as Ham
    by (unfold Smoother.amount; simpl; congruence).
  assert (Smoother.threshold s = Config.backoff_smoothing_threshold cfg) as Hth
    by (unfold Smoother.threshold; simpl; congruence).
  assert (0 < Smoother.freq s [PASSWORD_END]) as Hfreq.
  { rewrite freq_backoff by done. rewrite Ham, Hth. simpl.
    destruct (Z.ltb_spec
      (count (freq_dict m') [PASSWORD_END] + Config.additive_smoothing_amount cfg)
      (Config.backoff_smoothing_threshold cfg)); lia. }
  assert (total_mass s [] ≠ 0) as Hnil.
  { assert (0 < total_mass s []); [|lia].
    apply (Zsum_pos _ (Smoother.freq s [PASSWORD_END])); [| |done].
    - unfold next_freqs. apply Forall_fmap, Forall_forall. intros c _. simpl.
      rewrite freq_backoff by done. rewrite Ham, Hth. simpl.
      specialize (Hnonneg [c]).
      destruct (Z.ltb_spec
        (count (freq_dict m') [c] + Config.additive_smoothing_amount cfg)
        (Config.backoff_smoothing_threshold cfg)); lia.
    - unfold next_freqs. apply list_elem_of_fmap.
      exists PASSWORD_END. split; [done|]. simpl. by rewrite Hcfg', Hcfg. }
  split.
  { unfold train, bind. rewrite Hrun. unfold get. by rewrite Hmake. }
  split; [done|]. split; [done|]. split.
  { intros pf g Hpf Hg Hreach. rewrite freq_backoff by done.
    rewrite Ham, Hth. simpl.
    specialize (Hngram pf g Hpf). rewrite Horder in Hngram.
    specialize (Hngram Hg). specialize (Hpos pf Hpf).
    rewrite Hempty in Hngram. unfold count at 1 in Hngram.
    rewrite lookup_empty in Hngram. simpl in Hngram.
    destruct (Z.ltb_spec
      (count (freq_dict m') g + Config.additive_smoothing_amount cfg)
      (Config.backoff_smoothing_threshold cfg)); lia. }
  split; [lia|]. split; [done|]. split.
  - intros ctx answer Hlen. by apply predict_backoff_returns.
  - intros ctx. by apply predict_backoff_longest_suffix.
Qed.

End backoff_prediction.

(** ** What training leaves unchanged *)

Section settings_preserved.
Variable PASSWORD_END : char.
Import MarkovModel.

Lemma bind_same_settings {A B} (m : M t A) (k : A → M t B) (s : t) :
  same_settings s (m s).2 → (∀ a s', same_settings s' (k a s').2) →
  same_settings s (bind m k s).2.
Proof.
  intros Hm Hk. unfold bind. destruct (m s) as [[a|e] s'] eqn:Heq; simpl in *.
  - eapply same_settings_trans; [exact Hm | apply Hk].
  - exact Hm.
Qed.

Lemma for_same_settings {X} (l : list X) (body : X → M t unit) (s : t) :
  (∀ x s', same_settings s' (body x s').2) →
  same_settings s (for_ l body s).2.
Proof.
  intros Hbody. revert s. induction l as [|x l IH]; intros s; simpl.
  - apply same_settings_refl.
  - apply bind_same_settings; [apply Hbody | intros _ s'; apply IH].
Qed.

Lemma increment_same_settings g w m : same_settings m (increment g w m).2.
Proof.
  unfold increment.
  apply bind_same_settings.
  { destruct (negb (w =? 0)); apply same_settings_refl. }
  intros _ m1. rewrite bind_get.
  apply bind_same_settings.
  { destruct (len g <=? order m1); apply same_settings_refl. }
  intros _ m2.
  destruct (freq_dict m1 !! g); [by repeat split|].
  destruct (freq_dict_default m1); by repeat split.
Qed.

Lemma virtual_train_on_pwd_same_settings pwd w m :
  same_settings m (virtual_train_on_pwd PASSWORD_END pwd w m).2.
Proof.
  unfold virtual_train_on_pwd. rewrite bind_get. destruct (cls m).
  - unfold MarkovModel.train_on_pwd. rewrite bind_get.
    apply bind_same_settings.
    { apply for_same_settings. intros; apply increment_same_settings. }
    intros _ m1. apply bind_same_settings.
    { apply for_same_settings. intros; apply increment_same_settings. }
    intros _ m2. apply increment_same_settings.
  - unfold BackoffMarkovModel.train_on_pwd. rewrite bind_get.
    apply for_same_settings. intros p m1.
    apply for_same_settings. intros; apply increment_same_settings.
Qed.

Lemma construct_settings c cfg kind ord m0 :
  construct PASSWORD_END c cfg kind ord = Return m0 →
  cls m0 = c ∧ smoothing m0 = kind ∧ order m0 = ord ∧ config m0 = cfg
  ∧ smoother m0 = None ∧ freq_dict m0 = ∅ ∧ freq_dict_default m0 = true
  ∧ chars_to_index m0
    = foldl (λ d ic, <[ic.2 := ic.1]> d) ∅
            (enumerate (sorted (Config.char_bag cfg)))
  ∧ alphabet m0
    = match c with
      | ClsMarkovModel => sorted (Config.char_bag cfg)
      | ClsBackoffMarkovModel => sorted (Config.char_bag cfg) ++ [PASSWORD_START]
      end
  ∧ PASSWORD_END ∈ sorted (Config.char_bag cfg).
Proof.
  unfold construct, BackoffMarkovModel.init, MarkovModel.init.
  destruct c; case_bool_decide as Hend; try done.
  - intros [= <-]. by repeat split.
  - destruct (String.eqb kind "backoff"); [|done].
    intros [= <-]. by repeat split.
Qed.

(** A model that [train] returned: the settings are those of the
    constructor and the smoother is bound to the final table. *)
Lemma train_returns_inv c cfg kind ord pwds m0 m :
  construct PASSWORD_END c cfg kind ord = Return m0 →
  train PASSWORD_END pwds m0 = (Return tt, m) →
  ∃ sc, SMOOTHING_MAP kind = Some sc
        ∧ same_settings m0 m
        ∧ smoother m = Some (Smoother.init sc (freq_dict m) cfg).
Proof.
  intros (_ & Hkind & _ & Hcfg & _)%construct_settings.
  unfold train, bind.
  pose proof (for_same_settings pwds
    (λ pf, virtual_train_on_pwd PASSWORD_END pf.1 pf.2) m0) as Hsame.
  destruct (for_ pwds _ m0) as [[[]|e] m1]; [|done].
  specialize (Hsame ltac:(intros; apply virtual_train_on_pwd_same_settings)).
  simpl in Hsame. destruct Hsame as (Hc & Ha & Hi & Hs & Hd & Ho & Hcf).
  unfold get, make_smoother. rewrite Hs, Hkind.
  destruct (SMOOTHING_MAP kind) as [sc|]; [|done].
  intros [= <-]. exists sc. split; [done|]. split; [by repeat split|].
  simpl. by rewrite Hcf, Hcfg.
Qed.

End settings_preserved.

(** ** Persistence *)

Section persistence.
Variable PASSWORD_END : char.
Import MarkovModel.

Lemma json_load_list_to_map (doc : json) :
  json_load doc = list_to_map (reverse doc).
Proof.
  unfold json_load. induction doc as [|[k v] doc IH] using rev_ind; [done|].
  rewrite foldl_snoc, reverse_snoc, IH. reflexivity.
Qed.

(** Dumping the table and loading the document gives the table back. *)
Lemma json_load_dump (d : gmap str Z) : json_load (json_dump d) = d.
Proof.
  rewrite json_load_list_to_map. unfold json_dump.
  rewrite <- (list_to_map_to_list d) at 2.
  apply list_to_map_proper.
  - rewrite fmap_reverse, reverse_Permutation. apply NoDup_fst_map_to_list.
  - apply reverse_Permutation.
Qed.

(** C5. A model is constructed and trained, its table is saved, and a
    model is loaded from that file with the configuration, smoothing kind
    and order of the first: loading succeeds, the tables are equal, and
    [predict] and [probability_next_char] of the two models give the same
    outcome, values and exceptions alike, on every context, out vector and
    character. *)
Theorem save_load_same_predictions c cfg kind ord pwds m0 m fname fs :
  construct PASSWORD_END c cfg kind ord = Return m0 →
  train PASSWORD_END pwds m0 = (Return tt, m) →
  ∃ m',
    fromModelFile PASSWORD_END c fname cfg kind ord (saveModel m fname fs)
    = Return m'
    ∧ freq_dict m' = freq_dict m
    ∧ (∀ context (answer : ndarray),
         predict m' context answer = predict m context answer)
    ∧ (∀ context nc,
         probability_next_char m' context nc
         = probability_next_char m context nc).
Proof.
  intros Hcons Htrain.
  destruct (train_returns_inv PASSWORD_END c cfg kind ord pwds m0 m)
    as (sc & Hmap & Hsame & Hsm); [done..|].
  pose proof (construct_settings PASSWORD_END c cfg kind ord m0 Hcons)
    as (Hc & Hkind & Hord & Hcfg & Hnone & _).
  destruct Hsame as (Hc' & Ha' & Hi' & Hs' & Hd' & Ho' & Hcf').
  unfold fromModelFile, saveModel. rewrite lookup_insert_eq, Hcons.
  rewrite json_load_dump.
  unfold make_smoother at 1. simpl smoothing. rewrite Hkind, Hmap.
  match goal with
  | |- ∃ m', Return ?x = Return m' ∧ _ => exists x; set (m' := x)
  end.
  split; [done|]. split; [done|].
  assert (smoother m' = smoother m) as Hsm' by (by rewrite Hsm).
  assert (order m' = order m) as Hom' by (by rewrite Ho').
  assert (∀ context (answer : ndarray),
    predict m' context answer = predict m context answer) as Hpredict.
  { intros context answer. unfold predict, truncate_context.
    by rewrite Hsm', Hom'. }
  split; [exact Hpredict|].
  intros context nc. unfold probability_next_char.
  rewrite Hpredict.
  change (chars_to_index m') with (chars_to_index m0).
  change (alphabet m') with (alphabet m0).
  by rewrite Hi', Ha'.
Qed.

End persistence.

(** ** The layout of probability vectors *)

Section layout.
Variable PASSWORD_END : char.
Import MarkovModel.

Lemma sorted_Sorted (s : str) : Sorted N.le (sorted s).
Proof. apply Sorted_merge_sort. apply _. Qed.

Lemma elem_of_sorted (c : N) (s : str) : c ∈ sorted s ↔ c ∈ s.
Proof. unfold sorted. by rewrite merge_sort_Permutation. Qed.

(** In the standard variant the layout is as specified: the alphabet of
    the model is the character set sorted by code point, it holds the end
    sentinel, and the bound smoother has the same alphabet. *)
Lemma standard_model_layout cfg kind ord pwds m0 m :
  construct PASSWORD_END ClsMarkovModel cfg kind ord = Return m0 →
  train PASSWORD_END pwds m0 = (Return tt, m) →
  alphabet m = sorted (Config.char_bag cfg)
  ∧ Sorted N.le (alphabet m)
  ∧ PASSWORD_END ∈ alphabet m
  ∧ ∃ s, smoother m = Some s ∧ Smoother.alphabet s = alphabet m.
Proof.
  intros Hcons Htrain.
  destruct (train_returns_inv PASSWORD_END ClsMarkovModel cfg kind ord pwds m0 m)
    as (sc & Hmap & Hsame & Hsm); [done..|].
  apply construct_settings in Hcons as (_ & _ & _ & _ & _ & _ & _ & _ & Ha & Hend).
  destruct Hsame as (_ & Ha' & _).
  rewrite Ha', Ha. split; [done|]. split; [apply sorted_Sorted|].
  split; [done|]. eexists. split; [exact Hsm|]. reflexivity.
Qed.

(** C8, in the backoff-training variant. The constructor appends the
    start sentinel to the sorted character set after the index mapping was
    built, and the smoother takes its alphabet from the character set
    alone: the alphabet of the model is one longer than that of its
    smoother, the vector that [probability_next_char] allocates fails the
    shape assertion of the smoother, and every call raises. *)
Theorem backoff_model_layout_mismatch cfg kind ord pwds m0 m :
  construct PASSWORD_END ClsBackoffMarkovModel cfg kind ord = Return m0 →
  train PASSWORD_END pwds m0 = (Return tt, m) →
  ∃ s,
    smoother m = Some s
    ∧ alphabet m = sorted (Config.char_bag cfg) ++ [PASSWORD_START]
    ∧ Smoother.alphabet s = sorted (Config.char_bag cfg)
    ∧ length (alphabet m) = Datatypes.S (length (Smoother.alphabet s))
    ∧ ∀ context nc,
        probability_next_char m context nc = Raise AssertionError.
Proof.
  intros Hcons Htrain.
  destruct (train_returns_inv PASSWORD_END ClsBackoffMarkovModel cfg kind ord pwds m0 m)
    as (sc & Hmap & Hsame & Hsm); [done..|].
  apply construct_settings in Hcons as (_ & _ & _ & _ & _ & _ & _ & _ & Ha & Hend).
  destruct Hsame as (_ & Ha' & _).
  eexists. split; [exact Hsm|]. rewrite Ha', Ha.
  split; [done|]. split; [done|].
  assert (length (sorted (Config.char_bag cfg) ++ [PASSWORD_START])
          = Datatypes.S (length (sorted (Config.char_bag cfg)))) as Hlen
    by (rewrite length_app; simpl; lia).
  split; [done|].
  intros context nc. unfold probability_next_char.
  destruct (chars_to_index m !! nc); [|done].
  unfold predict. rewrite Hsm, Ha', Ha.
  unfold Smoother.predict, bind.
  rewrite assert_shape_fail; [done|].
  rewrite length_zeros, Hlen. simpl. lia.
Qed.

End layout.

(** ** What the constructors reject *)

Section construction.
Variable PASSWORD_END : char.
Import MarkovModel.

(** C9, as the code has it. The constructors reject a character set
    without the end sentinel, and the constructor of the backoff-training
    variant a smoothing kind other than [backoff]; nothing else is rejected
    at construction, whatever the order, the additive amount and the
    backoff threshold. An unknown smoothing kind is rejected when the
    smoother is built: with a [KeyError] at the end of [train], after the
    training loop, and on loading. *)
Theorem construct_rejections c cfg kind ord :
  (PASSWORD_END ∉ Config.char_bag cfg →
     construct PASSWORD_END c cfg kind ord = Raise AssertionError)
  ∧ (PASSWORD_END ∈ Config.char_bag cfg → c = ClsMarkovModel →
     ∃ m, construct PASSWORD_END c cfg kind ord = Return m)
  ∧ (PASSWORD_END ∈ Config.char_bag cfg → c = ClsBackoffMarkovModel →
     (kind = "backoff"%string →
        ∃ m, construct PASSWORD_END c cfg kind ord = Return m)
     ∧ (kind ≠ "backoff"%string →
        construct PASSWORD_END c cfg kind ord = Raise AssertionError))
  ∧ (∀ m0, construct PASSWORD_END c cfg kind ord = Return m0 →
     SMOOTHING_MAP kind = None →
     make_smoother m0 = Raise KeyError
     ∧ (∀ pwds m,
          for_ pwds (λ pf, virtual_train_on_pwd PASSWORD_END pf.1 pf.2) m0
          = (Return tt, m) →
          train PASSWORD_END pwds m0 = (Raise KeyError, m))
     ∧ (∀ fname doc fs, fs !! fname = Some doc →
          fromModelFile PASSWORD_END c fname cfg kind ord fs = Raise KeyError)).
Proof.
  split; [|split; [|split]].
  - intros Hend. unfold construct, BackoffMarkovModel.init, MarkovModel.init.
    rewrite bool_decide_eq_false_2 by (by rewrite elem_of_sorted).
    by destruct c.
  - intros Hend ->. unfold construct, MarkovModel.init.
    rewrite bool_decide_eq_true_2 by (by rewrite elem_of_sorted). eauto.
  - intros Hend ->. unfold construct, BackoffMarkovModel.init, MarkovModel.init.
    rewrite bool_decide_eq_true_2 by (by rewrite elem_of_sorted).
    split.
    + intros ->. simpl. eauto.
    + intros Hkind. by destruct (String.eqb_spec kind "backoff").
  - intros m0 Hcons Hmap.
    pose proof (construct_settings PASSWORD_END c cfg kind ord m0 Hcons)
      as (_ & Hkind & _).
    assert (make_smoother m0 = Raise KeyError) as Hmake
      by (unfold make_smoother; by rewrite Hkind, Hmap).
    split; [done|]. split.
    + intros pwds m Hloop. unfold train, bind. rewrite Hloop.
      pose proof (for_same_settings pwds
        (λ pf, virtual_train_on_pwd PASSWORD_END pf.1 pf.2) m0
        ltac:(intros; apply virtual_train_on_pwd_same_settings)) as Hsame.
      rewrite Hloop in Hsame. destruct Hsame as (_ & _ & _ & Hs & _).
      unfold get, make_smoother. simpl in Hs. by rewrite Hs, Hkind, Hmap.
    + intros fname doc fs Hdoc. unfold fromModelFile.
      rewrite Hdoc, Hcons. unfold make_smoother. simpl.
      by rewrite Hkind, Hmap.
Qed.

End construction.

(** ** The properties on the example of the specification *)

Section examples.
Import MarkovModel.

(** The standard trainer on the example: the table of the specification,
    and the prediction on the context [a]. *)
Lemma example_table :
  ∃ m0 m,
    construct Example.END ClsMarkovModel (Example.config 0 0) "none" 2 = Return m0
    ∧ train Example.END Example.corpus m0 = (Return tt, m)
    ∧ freq_dict m = Example.table.
Proof.
  eexists. eexists.
  split; [vm_compute; reflexivity|]. split; [vm_compute; reflexivity|].
  vm_compute. reflexivity.
Qed.

(** On that model, no smoothing: the vector predicted for the context [a]
    is [[0, 0, 1]] over [$ < a < b]. *)
Lemma example_prediction :
  ∃ m0 m,
    construct Example.END ClsMarkovModel (Example.config 0 0) "none" 2 = Return m0
    ∧ train Example.END Example.corpus m0 = (Return tt, m)
    ∧ predict m (lit "a") (zeros 3)
      = (Return tt, [Finite (Q2Qc 0); Finite (Q2Qc 0); Finite (Q2Qc 1)])
    ∧ probability_next_char m (lit "a") 98%N = Return (Finite (Q2Qc 1))
    ∧ probability_next_char m (lit "a") 97%N = Return (Finite (Q2Qc 0))
    ∧ probability_next_char m (lit "a") 36%N = Return (Finite (Q2Qc 0)).
Proof.
  eexists. eexists.
  split; [vm_compute; reflexivity|]. split; [vm_compute; reflexivity|].
  repeat split; vm_compute; reflexivity.
Qed.

(** Additive smoothing with amount 1 on the table of the example: the
    context [a] has raw total 1, and the three probabilities are
    [(0+1)/4], [(0+1)/4] and [(1+1)/4]. *)
Lemma example_additive_prediction :
  Smoother.predict (Example.smoother Smoother.AdditiveSmoothingSmoother 1 0)
                   (lit "a") (zeros 3)
  = (Return tt, [Finite (Q2Qc (1 # 4)); Finite (Q2Qc (1 # 4)); Finite (Q2Qc (2 # 4))]).
Proof. vm_compute. reflexivity. Qed.

Lemma train_on_pwd_order_one_witness :
  ∃ m0,
    construct Example.END ClsMarkovModel (Example.config 0 0) "none" 1 = Return m0
    ∧ MarkovModel.train_on_pwd Example.END (lit "ab") 1 m0
      = (Raise AssertionError, apply_increments 1 [lit "a"; lit "b"] m0)
    ∧ standard_ngrams Example.END 1 (lit "ab")
      = [lit "a"; lit "b"; lit "$"].
Proof.
  eexists. split; [vm_compute; reflexivity|].
  apply (train_on_pwd_order_one Example.END _ (lit "ab") 1);
    [reflexivity | discriminate | lia | reflexivity].
Defined.

Lemma truncate_context_order_one_witness :
  ∃ m0,
    construct Example.END ClsMarkovModel (Example.config 0 0) "none" 1 = Return m0
    ∧ truncate_context m0 (lit "ab") = lit "ab"
    ∧ last_chars (Z.to_nat (order m0 - 1)) (lit "ab") = [].
Proof.
  eexists. split; [vm_compute; reflexivity|].
  apply (truncate_context_order_one _ (lit "ab")); [reflexivity | discriminate].
Defined.

Lemma predict_accumulates_into_answer_witness :
  let s := Example.smoother Smoother.NoSmoothingSmoother 0 0 in
  Smoother.predict s (lit "a") [Finite (of_int 1); Finite (of_int 0); NaN]
  = (Return tt,
     zip_with (λ a f, div_int (add_int a f) (total_mass s (lit "a")))
              [Finite (of_int 1); Finite (of_int 0); NaN]
              (next_freqs s (lit "a")))
  ∧ Smoother.predict s (lit "a") (zeros 3) = (Return tt, distribution s (lit "a")).
Proof.
  intros s.
  destruct (predict_accumulates_into_answer s (lit "a")
              [Finite (of_int 1); Finite (of_int 0); NaN])
    as (Hsum & Hzeros & _);
    [left; reflexivity | reflexivity |].
  split; [exact Hsum | exact Hzeros].
Defined.



(** C10 fails on the code: the result is the distribution of the context
    not only on a zero vector, because the addition of float64 absorbs an
    entry that is small enough. With the table [{c: 1}] over the alphabet
    [abc] and no smoothing, [predict] on the vector [[0.0, 0.0, 1e-300]]
    adds the count 1 to [1e-300], which rounds to [1.0], and returns
    [[0.0, 0.0, 1.0]], as it does on the zero vector. *)
Lemma accumulation_absorbed_counterexample :
  let self :=
    FloatSmoother.init FloatSmoother.NoSmoothingSmoother {[ lit "c" := 1 ]}
      {| FloatSmoother.char_bag := lit "abc";
         FloatSmoother.additive_smoothing_amount := Ieee.Int 0 |} in
  let zero := SpecFloat.S754_zero false in
  let answer := [zero; zero; Ieee.lit_1e_300] in
  answer ≠ Ieee.zeros 3
  ∧ Ieee.add Ieee.lit_1e_300 Ieee.lit_1_0 = Ieee.lit_1_0
  ∧ FloatSmoother.predict self [] answer
    = (Return tt, [zero; zero; Ieee.lit_1_0])
  ∧ FloatSmoother.predict self [] (Ieee.zeros 3)
    = (Return tt, [zero; zero; Ieee.lit_1_0]).
Proof.
  repeat split; try (vm_compute; reflexivity). vm_compute. discriminate.
Qed.

Lemma predict_zero_total_returns_witness :
  Smoother.predict (Example.smoother Smoother.NoSmoothingSmoother 0 0)
                   (lit "$") (zeros 3)
  = (Return tt, replicate 3 NaN).
Proof.
  destruct (predict_zero_total_returns
              (Example.smoother Smoother.NoSmoothingSmoother 0 0)
              (lit "$") (zeros 3))
    as (v & Hrun & _ & _ & Hnan);
    [left; reflexivity | vm_compute; reflexivity | reflexivity |].
  rewrite Hrun. f_equal. apply Hnan; [|reflexivity].
  intros c Hc. vm_compute in Hc.
  repeat (apply elem_of_cons in Hc as [->|Hc]; [vm_compute; reflexivity|]).
  by apply elem_of_nil in Hc.
Defined.

(** C6 fails on the code: on the table of the example the context [$] has
    a zero total, and [predict] with no smoothing raises nothing; it
    returns a vector of NaN. *)
Lemma undefined_distribution_counterexample :
  let s := Example.smoother Smoother.NoSmoothingSmoother 0 0 in
  raw_total Example.table (Smoother.alphabet s) (lit "$") = 0
  ∧ Smoother.predict s (lit "$") (zeros 3) = (Return tt, [NaN; NaN; NaN])
  ∧ ∀ e, (Smoother.predict s (lit "$") (zeros 3)).1 ≠ Raise e.
Proof.
  intros s. split; [vm_compute; reflexivity|].
  assert (Smoother.predict s (lit "$") (zeros 3) = (Return tt, [NaN; NaN; NaN]))
    as Hrun by (vm_compute; reflexivity).
  split; [exact Hrun|]. intros e. by rewrite Hrun.
Qed.

Lemma backoff_predict_falls_back_witness :
  let s := Example.smoother Smoother.BackoffSmoother 0 0 in
  total_mass s (lit "ab") = 0 ∧ total_mass s (lit "b") = 1
  ∧ Smoother.predict s (lit "ab") [NaN; NaN; NaN]
    = Smoother.predict s (slice (lit "ab") (Some 1) None) (zeros 3)
  ∧ Smoother.predict s (lit "ab") [NaN; NaN; NaN]
    = (Return tt, distribution s (lit "b"))
  ∧ Smoother.predict s (lit "b") (zeros 3)
    = (Return tt, distribution s (lit "b")).
Proof.
  intros s.
  split; [vm_compute; reflexivity|]. split; [vm_compute; reflexivity|].
  destruct (backoff_predict_falls_back s (lit "ab") [NaN; NaN; NaN])
    as (Hback & Hsuffix & _);
    [reflexivity | discriminate | vm_compute; reflexivity | reflexivity |].
  split; [exact Hback|].
  apply (Hsuffix 97%N 98%N); [reflexivity | vm_compute; discriminate].
Defined.

End examples.

Section model_examples.
Import MarkovModel.

Lemma backoff_training_defines_predictions_witness :
  ∃ m0,
    construct Example.END ClsBackoffMarkovModel (Example.config 0 1) "backoff" 2
    = Return m0
    ∧ ∃ m s,
        train Example.END Example.corpus m0 = (Return tt, m)
        ∧ smoother m = Some s
        ∧ Smoother.freq s [Example.END] ≠ 0
        ∧ total_mass s [] ≠ 0
        ∧ (∀ ctx (answer : ndarray),
             length answer = length (Smoother.alphabet s) →
             ∃ v : ndarray, Smoother.predict s ctx answer = (Return tt, v))
        ∧ ∀ ctx, ∃ k : nat,
            (k ≤ length ctx)%nat
            ∧ total_mass s (drop k ctx) ≠ 0
            ∧ (∀ j : nat, (j < k)%nat → total_mass s (drop j ctx) = 0)
            ∧ Smoother.predict s ctx (zeros (length (Smoother.alphabet s)))
              = (Return tt, distribution s (drop k ctx)).
Proof.
  eexists. split; [vm_compute; reflexivity|].
  destruct (backoff_training_defines_predictions Example.END
              (Example.config 0 1) "backoff" 2 Example.corpus _ eq_refl)
    as [(m & s & Htrain & Hsm & _ & _ & Hfreq & Hnil & Hreturns & Hlongest) _].
  - lia.
  - discriminate.
  - intros pf ->%list_elem_of_singleton. simpl. lia.
  - simpl. lia.
  - vm_compute. discriminate.
  - exists m, s. repeat split; assumption.
Defined.

(** C4 fails on the code. With the default threshold of 10 the counts of
    the one-password corpus are floored to zero: the context [a], which
    occurs in the normalized training string, has zero mass, prediction
    backs off to the empty context and fails there. With a threshold of 0
    the context [$] still has a zero total, and prediction recurses on the
    empty context, where it succeeds. With one positive and one negative
    weight the counts cancel, and prediction fails on the empty context. *)
Lemma backoff_invariant_counterexample :
  (∃ m0 m s,
     construct Example.END ClsBackoffMarkovModel (DEFAULT_CONFIG (lit "ab$"))
               "backoff" 2 = Return m0
     ∧ train Example.END Example.corpus m0 = (Return tt, m)
     ∧ smoother m = Some s
     ∧ count (freq_dict m) (lit "a") = 1
     ∧ Smoother.freq s (lit "a") = 0
     ∧ total_mass s (lit "a") = 0
     ∧ total_mass s [] = 0
     ∧ predict m (lit "a") (zeros 3) = (Raise AssertionError, zeros 3))
  ∧ (∃ m0 m s,
       construct Example.END ClsBackoffMarkovModel (Example.config 0 0)
                 "backoff" 2 = Return m0
       ∧ train Example.END Example.corpus m0 = (Return tt, m)
       ∧ smoother m = Some s
       ∧ total_mass s (lit "$") = 0
       ∧ total_mass s [] = 3
       ∧ Smoother.predict s (lit "$") (zeros 3)
         = Smoother.predict s [] (zeros 3))
  ∧ (∃ m0 m,
       construct Example.END ClsBackoffMarkovModel (Example.config 0 0)
                 "backoff" 2 = Return m0
       ∧ train Example.END [(lit "a", 1); (lit "a", -1)] m0 = (Return tt, m)
       ∧ predict m (lit "a") (zeros 3) = (Raise AssertionError, zeros 3)).
Proof.
  split; [|split].
  - eexists. eexists. eexists.
    split; [vm_compute; reflexivity|]. split; [vm_compute; reflexivity|].
    split; [reflexivity|]. repeat split; vm_compute; reflexivity.
  - eexists. eexists. eexists.
    split; [vm_compute; reflexivity|]. split; [vm_compute; reflexivity|].
    split; [reflexivity|]. split; [vm_compute; reflexivity|].
    split; [vm_compute; reflexivity|].
    apply predict_backoff_zero_cons; vm_compute; reflexivity.
  - eexists. eexists.
    split; [vm_compute; reflexivity|]. split; vm_compute; reflexivity.
Qed.

Lemma save_load_same_predictions_witness :
  ∃ m0 m,
    construct Example.END ClsMarkovModel (Example.config 0 0) "none" 2 = Return m0
    ∧ train Example.END Example.corpus m0 = (Return tt, m)
    ∧ ∃ m',
        fromModelFile Example.END ClsMarkovModel "model.json"
          (Example.config 0 0) "none" 2 (saveModel m "model.json" ∅)
        = Return m'
        ∧ freq_dict m' = freq_dict m
        ∧ (∀ context (answer : ndarray),
             predict m' context answer = predict m context answer)
        ∧ (∀ context nc,
             probability_next_char m' context nc
             = probability_next_char m context nc).
Proof.
  eexists. eexists.
  split; [vm_compute; reflexivity|]. split; [vm_compute; reflexivity|].
  eapply (save_load_same_predictions Example.END ClsMarkovModel
           (Example.config 0 0) "none" 2 Example.corpus);
    vm_compute; reflexivity.
Defined.

Lemma backoff_model_layout_mismatch_witness :
  ∃ m0 m,
    construct Example.END ClsBackoffMarkovModel (Example.config 0 0) "backoff" 2
    = Return m0
    ∧ train Example.END Example.corpus m0 = (Return tt, m)
    ∧ alphabet m = lit "$ab" ++ [PASSWORD_START]
    ∧ probability_next_char m (lit "a") 98%N = Raise AssertionError
    ∧ ∃ s,
        smoother m = Some s
        ∧ alphabet m = sorted (lit "ab$") ++ [PASSWORD_START]
        ∧ Smoother.alphabet s = sorted (lit "ab$")
        ∧ length (alphabet m) = Datatypes.S (length (Smoother.alphabet s))
        ∧ ∀ context nc,
            probability_next_char m context nc = Raise AssertionError.
Proof.
  eexists. eexists.
  split; [vm_compute; reflexivity|]. split; [vm_compute; reflexivity|].
  split; [vm_compute; reflexivity|]. split; [vm_compute; reflexivity|].
  eapply (backoff_model_layout_mismatch Example.END (Example.config 0 0)
           "backoff" 2 Example.corpus);
    vm_compute; reflexivity.
Defined.

Lemma construct_rejections_witness :
  construct Example.END ClsMarkovModel
    {| Config.char_bag := lit "ab";
       Config.additive_smoothing_amount := 0;
       Config.backoff_smoothing_threshold := 0 |} "none" 2
  = Raise AssertionError
  ∧ (∃ m, construct Example.END ClsMarkovModel (Example.config 0 0) "none" 2
          = Return m)
  ∧ construct Example.END ClsBackoffMarkovModel (Example.config 0 0) "none" 2
    = Raise AssertionError
  ∧ ∃ m0, construct Example.END ClsMarkovModel (Example.config 0 0) "bogus" 2
          = Return m0
          ∧ train Example.END Example.corpus m0
            = (Raise KeyError, apply_increments 1 [lit "a"; lit "ab"; lit "b$"] m0).
Proof.
  split.
  { apply (proj1 (construct_rejections Example.END ClsMarkovModel _ "none" 2)).
    simpl. intros H. vm_compute in H.
    repeat (apply elem_of_cons in H as [H|H]; [discriminate|]).
    by apply elem_of_nil in H. }
  split.
  { apply (proj1 (proj2 (construct_rejections Example.END ClsMarkovModel
                           (Example.config 0 0) "none" 2))); [|reflexivity].
    vm_compute. do 2 right. left. }
  split.
  { apply (proj1 (proj2 (proj2 (construct_rejections Example.END
                                  ClsBackoffMarkovModel (Example.config 0 0)
                                  "none" 2))));
      [|reflexivity|discriminate].
    vm_compute. do 2 right. left. }
  eexists. split; [vm_compute; reflexivity|].
  eapply (proj2 (proj2 (proj2 (construct_rejections Example.END ClsMarkovModel
                                 (Example.config 0 0) "bogus" 2))));
    vm_compute; reflexivity.
Defined.

(** C9 fails on the code: a standard model of order 0, with an unknown
    smoothing kind, a negative amount and a negative threshold, is
    constructed; the unknown kind surfaces as a [KeyError] when [train]
    builds the smoother. *)
Lemma construct_validation_counterexample :
  ∃ m0,
    construct Example.END ClsMarkovModel (Example.config (-1) (-1)) "bogus" 0
    = Return m0
    ∧ order m0 = 0
    ∧ SMOOTHING_MAP (smoothing m0) = None
    ∧ Config.additive_smoothing_amount (config m0) = -1
    ∧ Config.backoff_smoothing_threshold (config m0) = -1
    ∧ train Example.END [] m0 = (Raise KeyError, m0).
Proof.
  eexists. split; [vm_compute; reflexivity|].
  repeat split; vm_compute; reflexivity.
Qed.

End model_examples.

(** * Further properties of the code *)

(** ** The index of a character *)

Section char_index.
Variable PASSWORD_END : char.
Import MarkovModel.

(** The dictionary built from [enumerate]: a character of the list is
    mapped to its last position, any other character is left as it was. *)
Lemma index_dict_from (l : str) (i : nat) (d : gmap N nat) (c : N) :
  let d' := foldl (λ d ic, <[ic.2 := ic.1]> d) d (enumerate_from i l) in
  (c ∈ l →
     ∃ j : nat, d' !! c = Some (i + j)%nat ∧ l !! j = Some c
                ∧ ∀ k : nat, l !! k = Some c → (k ≤ j)%nat)
  ∧ (c ∉ l → d' !! c = d !! c).
Proof.
  revert i d. induction l as [|x l IH]; intros i d; simpl.
  - split; [by intros ?%elem_of_nil | done].
  - destruct (IH (Datatypes.S i) (<[x := i]> d)) as [IHin IHout].
    destruct (decide (c ∈ l)) as [Hl|Hl].
    + split; [|intros Hc; exfalso; apply Hc; by right].
      intros _. destruct (IHin Hl) as (j & Hj & Hlj & Hmax).
      exists (Datatypes.S j). split; [by rewrite Hj, Nat.add_succ_r|].
      split; [done|]. intros [|k] Hk; [lia|]. apply Hmax in Hk. lia.
    + rewrite (IHout Hl). split.
      * intros [->|?]%elem_of_cons; [|done].
        exists 0%nat. rewrite lookup_insert_eq, Nat.add_0_r.
        split; [done|]. split; [done|].
        intros [|k] Hk; [lia|]. exfalso. apply Hl.
        simpl in Hk. by apply list_elem_of_lookup_2 in Hk.
      * intros Hc. apply lookup_insert_ne. intros ->. apply Hc. by left.
Qed.

Lemma elem_of_sorted_bag (c : N) (s : str) : c ∈ sorted s ↔ c ∈ s.
Proof. unfold sorted. by rewrite merge_sort_Permutation. Qed.

(** The loop of [train] and [train] itself leave the settings of the model
    as they were, whatever the outcome. *)
Lemma train_same_settings pwds m :
  same_settings m (train PASSWORD_END pwds m).2.
Proof.
  unfold train. apply bind_same_settings.
  { apply for_same_settings. intros. apply virtual_train_on_pwd_same_settings. }
  intros _ m1. rewrite bind_get.
  destruct (make_smoother m1); [by repeat split | apply same_settings_refl].
Qed.

(** X1. The index mapping that the constructor builds sends every character
    of the character set to a position of the sorted alphabet that holds
    this character, the last such position, and has no entry for any other
    character. *)
Theorem chars_to_index_positions c cfg kind ord m0 ch :
  construct PASSWORD_END c cfg kind ord = Return m0 →
  (ch ∈ Config.char_bag cfg →
     ∃ j : nat,
       chars_to_index m0 !! ch = Some j
       ∧ sorted (Config.char_bag cfg) !! j = Some ch
       ∧ ∀ k : nat, sorted (Config.char_bag cfg) !! k = Some ch → (k ≤ j)%nat)
  ∧ (ch ∉ Config.char_bag cfg → chars_to_index m0 !! ch = None).
Proof.
  intros (_ & _ & _ & _ & _ & _ & _ & Hidx & _)%construct_settings.
  rewrite Hidx. unfold enumerate.
  destruct (index_dict_from (sorted (Config.char_bag cfg)) 0 ∅ ch) as [Hin Hout].
  split.
  - intros Hch. apply Hin. by apply elem_of_sorted_bag.
  - intros Hch. rewrite Hout; [done|]. by rewrite elem_of_sorted_bag.
Qed.

(** X2. [probability_next_char] of a character outside the character set
    raises [AssertionError], before or after training and whatever the
    outcome of training was; for a character of the set on a model that was
    only constructed it raises [AttributeError], no smoother being bound. *)
Theorem probability_next_char_rejects c cfg kind ord pwds m0 context nc :
  construct PASSWORD_END c cfg kind ord = Return m0 →
  (nc ∉ Config.char_bag cfg →
     probability_next_char m0 context nc = Raise AssertionError
     ∧ probability_next_char (train PASSWORD_END pwds m0).2 context nc
       = Raise AssertionError)
  ∧ (nc ∈ Config.char_bag cfg →
     probability_next_char m0 context nc = Raise AttributeError).
Proof.
  intros Hcons.
  pose proof (construct_settings _ _ _ _ _ _ Hcons)
    as (_ & _ & _ & _ & Hnone & _ & _ & Hidx & _).
  destruct (index_dict_from (sorted (Config.char_bag cfg)) 0 ∅ nc) as [Hin Hout].
  split.
  - intros Hnc.
    assert (chars_to_index m0 !! nc = None) as Hm0.
    { rewrite Hidx. etrans; [apply Hout | apply lookup_empty].
      by rewrite elem_of_sorted_bag. }
    split; unfold probability_next_char.
    + by rewrite Hm0.
    + destruct (train_same_settings pwds m0) as (_ & _ & -> & _).
      by rewrite Hm0.
  - intros Hnc. unfold probability_next_char.
    destruct Hin as (j & Hj & _); [by apply elem_of_sorted_bag|].
    assert (chars_to_index m0 !! nc = Some j) as -> by (rewrite Hidx; exact Hj).
    unfold predict. by rewrite Hnone.
Qed.

(** X3. On a trained standard model with no smoothing or additive smoothing,
    [probability_next_char] returns the smoothed count of the truncated
    context followed by the character, over the total of the truncated
    context. *)
Theorem probability_next_char_value cfg kind ord pwds m0 m context nc :
  construct PASSWORD_END ClsMarkovModel cfg kind ord = Return m0 →
  train PASSWORD_END pwds m0 = (Return tt, m) →
  kind = "none"%string ∨ kind = "additive"%string →
  nc ∈ Config.char_bag cfg →
  ∃ s,
    smoother m = Some s
    ∧ probability_next_char m context nc
      = Return (div_int
                  (Finite (of_int (Smoother.freq s (truncate_context m context ++ [nc]))))
                  (total_mass s (truncate_context m context))).
Proof.
  intros Hcons Htrain Hkind Hnc.
  destruct (train_returns_inv PASSWORD_END ClsMarkovModel cfg kind ord pwds m0 m)
    as (sc & Hmap & Hsame & Hsm); [done..|].
  pose proof (construct_settings _ _ _ _ _ _ Hcons)
    as (_ & _ & _ & _ & _ & _ & _ & Hidx & Halpha & _).
  destruct Hsame as (_ & Ha & Hi & _).
  eexists. split; [exact Hsm|].
  destruct (index_dict_from (sorted (Config.char_bag cfg)) 0 ∅ nc) as [Hin _].
  destruct Hin as (j & Hj & Hlj & _); [by apply elem_of_sorted_bag|].
  unfold probability_next_char. rewrite Hi.
  assert (chars_to_index m0 !! nc = Some j) as -> by (rewrite Hidx; exact Hj).
  unfold predict. rewrite Hsm, Ha, Halpha.
  change (sorted (Config.char_bag cfg))
    with (Smoother.alphabet (Smoother.init sc (freq_dict m) cfg)) at 1.
  rewrite predict_plain_zeros; last first.
  { destruct Hkind as [-> | ->]; vm_compute in Hmap; by injection Hmap as <-. }
  unfold distribution, next_freqs. rewrite <- list_fmap_compose.
  rewrite list_lookup_fmap. simpl Smoother.alphabet. by rewrite Hlj.
Qed.

(** ** The context window *)

(** X4. For an order of at least 1, truncating twice is truncating once; for
    an order of at least 2 the truncated context is shorter than the order,
    so that every ngram a smoother looks up is no longer than the order. *)
Theorem truncate_context_window (m : MarkovModel.t) context :
  1 ≤ order m →
  truncate_context m (truncate_context m context) = truncate_context m context
  ∧ (2 ≤ order m →
     len (truncate_context m context) < order m
     ∧ ∀ ch, len (truncate_context m context ++ [ch]) ≤ order m).
Proof.
  intros Hord.
  assert (2 ≤ order m → len (truncate_context m context) < order m) as Hbound.
  { intros Hord2. rewrite truncate_context_order_ge_2 by done.
    case_decide; [|lia]. unfold last_chars, len in *. rewrite length_drop. lia. }
  split; [|intros Hord2; split; [by apply Hbound|]].
  - destruct (decide (order m = 1)) as [Hone|Hone].
    + assert (∀ ctx, truncate_context m ctx = ctx) as Hid.
      { intros ctx. unfold truncate_context. rewrite Hone.
        destruct (len ctx >=? 1); [|done].
        change (- (1 - 1)) with 0. by rewrite slice_from. }
      by rewrite !Hid.
    + specialize (Hbound ltac:(lia)).
      unfold truncate_context at 1.
      destruct (Z.geb_spec (len (truncate_context m context)) (order m)); [lia|done].
  - intros ch. specialize (Hbound Hord2). unfold len in *.
    rewrite length_app. simpl. lia.
Qed.

(** X5. For an order of at least 2, prediction looks at the trailing
    [order - 1] characters of the context only: characters put in front of
    a context of at least [order - 1] characters change neither what
    [predict] does nor what [probability_next_char] returns. *)
Theorem predict_trailing_context (m : MarkovModel.t) front context :
  2 ≤ order m → order m - 1 ≤ len context →
  truncate_context m (front ++ context) = truncate_context m context
  ∧ (∀ answer : ndarray,
       predict m (front ++ context) answer = predict m context answer)
  ∧ (∀ nc, probability_next_char m (front ++ context) nc
           = probability_next_char m context nc).
Proof.
  intros Hord Hlen.
  assert (truncate_context m (front ++ context) = truncate_context m context)
    as Htrunc.
  { rewrite !truncate_context_order_ge_2 by done.
    unfold len in *. unfold last_chars.
    destruct (decide (order m ≤ Z.of_nat (length (front ++ context)))) as [Hl|Hl];
      rewrite length_app in Hl.
    - rewrite length_app, drop_app_ge by lia.
      case_decide.
      + f_equal. lia.
      + replace (length front + length context - Z.to_nat (order m - 1)
                 - length front)%nat with 0%nat by lia.
        done.
    - destruct front as [|x front]; [|simpl in Hl; lia].
      simpl. by rewrite decide_False by (simpl in Hl; lia). }
  split; [done|].
  assert (∀ answer : ndarray,
    predict m (front ++ context) answer = predict m context answer) as Hpredict.
  { intros answer. unfold predict. by rewrite Htrunc. }
  split; [done|]. intros nc. unfold probability_next_char.
  by rewrite Hpredict.
Qed.

End char_index.

(** ** Predicted vectors as probability distributions *)

Section normalization.
Import Smoother.
Implicit Types (self : Smoother.t) (answer : ndarray).

Lemma of_int_zero : of_int 0 = Q2Qc 0.
Proof. unfold of_int. apply Z2Qc_inj_0. Qed.

Lemma of_int_pos (a : Z) : 0 < a → (Q2Qc 0 < of_int a)%Qc.
Proof.
  intros Ha. rewrite <- of_int_zero. unfold of_int.
  exact (proj1 (Z2Qc_inj_lt 0 a) Ha).
Qed.

Lemma of_int_nonneg (a : Z) : 0 ≤ a → (Q2Qc 0 ≤ of_int a)%Qc.
Proof.
  intros Ha. rewrite <- of_int_zero. unfold of_int.
  exact (proj1 (Z2Qc_inj_le 0 a) Ha).
Qed.

Lemma of_int_le (a b : Z) : a ≤ b → (of_int a ≤ of_int b)%Qc.
Proof. intros Ha. unfold of_int. exact (proj1 (Z2Qc_inj_le a b) Ha). Qed.

Lemma Zsum_elem_le (fs : list Z) (f : Z) :
  Forall (λ x, 0 ≤ x) fs → f ∈ fs → f ≤ Zsum fs.
Proof.
  induction 1 as [|y l Hy Hl IH]; intros Hf.
  - by apply elem_of_nil in Hf.
  - simpl. apply Zsum_nonneg in Hl as Hsum.
    apply elem_of_cons in Hf as [->|Hf]; [lia|]. specialize (IH Hf). lia.
Qed.

Lemma quotient_in_unit_interval (f t : Z) :
  0 ≤ f → f ≤ t → 0 < t →
  (Q2Qc 0 ≤ of_int f / of_int t ∧ of_int f / of_int t ≤ Q2Qc 1)%Qc.
Proof.
  intros Hf Hft Ht. unfold Qcdiv.
  assert (Q2Qc 0 < / of_int t)%Qc as Hinv by (by apply Qcinv_pos, of_int_pos).
  split.
  - apply Qcmult_nonneg_nonneg; [by apply of_int_nonneg | by apply Qclt_le_weak].
  - rewrite <- (Qcmult_inv_r (of_int t)) by (apply of_int_nonzero; lia).
    apply Qcmult_le_mono_nonneg_r; [by apply Qclt_le_weak | by apply of_int_le].
Qed.


(** A context of nonzero total, whatever the strategy: on a zero vector
    [predict] returns the distribution of the context. *)
Lemma predict_nonzero_zeros self ctx :
  total_mass self ctx ≠ 0 →
  predict self ctx (zeros (length (alphabet self)))
  = (Return tt, distribution self ctx).
Proof.
  intros Htotal. destruct (cls self) eqn:Hcls.
  - apply predict_plain_zeros. congruence.
  - apply predict_plain_zeros. congruence.
  - by apply predict_backoff_nonzero_zeros.
Qed.

(** X6. Under every strategy, for a context whose total is not zero and
    none of whose smoothed counts is negative, [predict] on a zero vector
    returns one entry for every character of the alphabet, and every entry
    is a finite number between 0 and 1. *)
Theorem predict_entries_in_unit_interval self ctx :
  total_mass self ctx ≠ 0 →
  Forall (λ f, 0 ≤ f) (next_freqs self ctx) →
  ∃ v : ndarray,
    predict self ctx (zeros (length (alphabet self))) = (Return tt, v)
    ∧ length v = length (alphabet self)
    ∧ Forall (λ x, ∃ q, x = Finite q ∧ (Q2Qc 0 ≤ q ∧ q ≤ Q2Qc 1)%Qc) v.
Proof.
  intros Htotal Hnonneg. exists (distribution self ctx).
  split; [by apply predict_nonzero_zeros|].
  split; [unfold distribution; by rewrite length_fmap, length_next_freqs|].
  unfold distribution.
  apply Forall_fmap, Forall_forall. intros f Hf. unfold compose.
  rewrite div_int_nonzero by done. eexists. split; [reflexivity|].
  pose proof (Zsum_nonneg _ Hnonneg) as Hsum.
  apply quotient_in_unit_interval.
  - by eapply Forall_forall in Hnonneg.
  - by apply Zsum_elem_le.
  - unfold total_mass in *. lia.
Qed.


(** X8. A backoff smoother whose threshold is at most its amount, on a
    table without negative counts, looks up what the additive smoother of
    the same table and configuration looks up; on every context whose total
    is not zero the two predict the same. *)
Theorem backoff_without_flooring (sb sa : Smoother.t) :
  cls sb = BackoffSmoother → cls sa = AdditiveSmoothingSmoother →
  alphabet sb = alphabet sa → freq_dict sb = freq_dict sa →
  config sb = config sa →
  threshold sb ≤ amount sb → (∀ g, 0 ≤ count (freq_dict sb) g) →
  (∀ g, freq sb g = freq sa g)
  ∧ (∀ ctx answer,
       length answer = length (alphabet sa) → total_mass sa ctx ≠ 0 →
       predict sb ctx answer = predict sa ctx answer).
Proof.
  intros Hb Ha Halpha Hdict Hcfg Hth Hcount.
  assert (∀ g, freq sb g = freq sa g) as Hfreq.
  { intros g. rewrite freq_backoff by done. rewrite (freq_additive sa) by done.
    unfold amount, threshold in *. rewrite <- Hdict, <- Hcfg.
    specialize (Hcount g).
    destruct (Z.ltb_spec
      (count (freq_dict sb) g + Config.additive_smoothing_amount (config sb))
      (Config.backoff_smoothing_threshold (config sb))); [lia|done]. }
  split; [done|]. intros ctx answer Hlen Htotal.
  assert (next_freqs sb ctx = next_freqs sa ctx) as Hnf.
  { unfold next_freqs. rewrite Halpha. apply list_fmap_ext. intros _ c _. apply Hfreq. }
  assert (total_mass sb ctx = total_mass sa ctx) as Htm
    by (unfold total_mass; by rewrite Hnf).
  rewrite predict_backoff_nonzero by (rewrite ?Halpha, ?Htm; done).
  rewrite (predict_plain sa) by (done || congruence).
  by rewrite Hnf, Htm.
Qed.

(** X9. The outcome of backoff prediction on a zero vector, in full: it
    returns the distribution of the longest suffix of the context whose
    total is not zero, or, when every suffix down to the empty context has
    a zero total, it raises [AssertionError] and leaves the vector zero. *)
Theorem backoff_predict_outcome self ctx :
  cls self = BackoffSmoother →
  (∃ k : nat,
     (k ≤ length ctx)%nat
     ∧ total_mass self (drop k ctx) ≠ 0
     ∧ (∀ j : nat, (j < k)%nat → total_mass self (drop j ctx) = 0)
     ∧ predict self ctx (zeros (length (alphabet self)))
       = (Return tt, distribution self (drop k ctx)))
  ∨ ((∀ k : nat, (k ≤ length ctx)%nat → total_mass self (drop k ctx) = 0)
     ∧ predict self ctx (zeros (length (alphabet self)))
       = (Raise AssertionError, zeros (length (alphabet self)))).
Proof.
  intros Hcls. induction ctx as [|c ctx IH].
  - destruct (decide (total_mass self [] = 0)) as [Hz|Hnz].
    + right. split.
      * intros k _. by rewrite drop_nil.
      * apply predict_backoff_zero_nil; [done..|apply length_zeros].
    + left. exists 0%nat. split; [done|]. split; [done|]. split; [lia|].
      by apply predict_backoff_nonzero_zeros.
  - destruct (decide (total_mass self (c :: ctx) = 0)) as [Hz|Hnz].
    + rewrite predict_backoff_zero_cons by (done || apply length_zeros).
      destruct IH as [(k & Hk & Hnzk & Hbelow & Hrun)|[Hall Hrun]].
      * left. exists (Datatypes.S k). split; [simpl; lia|]. split; [done|].
        split; [|done]. intros [|j] Hj; [done|]. apply Hbelow. lia.
      * right. split; [|done]. intros [|k] Hk; [done|].
        apply Hall. simpl in Hk. lia.
    + left. exists 0%nat. split; [lia|]. split; [done|]. split; [lia|].
      by apply predict_backoff_nonzero_zeros.
Qed.

End normalization.

(** ** Contract violations and invariants of training *)

Section training_contract.
Variable PASSWORD_END : char.
Import MarkovModel.

Lemma increment_zero g self : increment g 0 self = (Raise AssertionError, self).
Proof. reflexivity. Qed.

(** A loop whose body always raises at once. *)
Lemma for_raising {S X} (l : list X) (body : X → M S unit) (e : exn) (s : S) :
  (∀ x s', body x s' = (Raise e, s')) →
  for_ l body s = (match l with [] => Return tt | _ => Raise e end, s).
Proof.
  intros Hbody. destruct l as [|x l]; [reflexivity|].
  simpl. unfold bind. by rewrite Hbody.
Qed.

(** A loop whose body never does anything. *)
Lemma for_idle {S X} (l : list X) (body : X → M S unit) (s : S) :
  (∀ x s', x ∈ l → body x s' = (Return tt, s')) →
  for_ l body s = (Return tt, s).
Proof.
  intros Hbody. induction l as [|x l IH]; [reflexivity|].
  simpl. unfold bind. rewrite Hbody by left.
  apply IH. intros y s' Hy. apply Hbody. by right.
Qed.

Lemma range_nil (a b : Z) : b ≤ a → range a b = [].
Proof. intros Hab. unfold range. by replace (Z.to_nat (b - a)) with 0%nat by lia. Qed.

Lemma range_cons (a b : Z) : a < b → range a b = a :: range (a + 1) b.
Proof.
  intros Hab. unfold range.
  replace (Z.to_nat (b - a)) with (Datatypes.S (Z.to_nat (b - (a + 1)))) by lia.
  simpl. f_equal; [lia|].
  rewrite <- fmap_S_seq, <- list_fmap_compose.
  apply list_fmap_ext. intros _ k _. simpl. lia.
Qed.

(** X10. A zero weight is a contract violation of both trainers: training
    on any password with weight 0 raises [AssertionError] at the first
    increment and leaves the model as it was (for the backoff-oriented
    trainer when the order is at least 1; with an order below 1 that
    trainer increments nothing and returns, whatever the weight). *)
Theorem zero_weight_rejected (m : MarkovModel.t) pwd :
  (cls m = ClsMarkovModel ∨ 1 ≤ order m →
     virtual_train_on_pwd PASSWORD_END pwd 0 m = (Raise AssertionError, m))
  ∧ (cls m = ClsBackoffMarkovModel → order m ≤ 0 →
     ∀ w, virtual_train_on_pwd PASSWORD_END pwd w m = (Return tt, m)).
Proof.
  split.
  - intros Hcase. unfold virtual_train_on_pwd. rewrite bind_get.
    destruct (cls m) eqn:Hcls.
    + unfold MarkovModel.train_on_pwd. rewrite bind_get. unfold bind.
      rewrite (for_raising _ _ AssertionError) by (intros; apply increment_zero).
      destruct (range 1 _); [|done].
      rewrite (for_raising _ _ AssertionError) by (intros; apply increment_zero).
      by destruct (range 0 _).
    + destruct Hcase as [?|Hord]; [done|].
      unfold BackoffMarkovModel.train_on_pwd. rewrite bind_get.
      change ([PASSWORD_START] ++ pwd ++ [PASSWORD_END])
        with (PASSWORD_START :: pwd ++ [PASSWORD_END]).
      set (pwd_norm := PASSWORD_START :: pwd ++ [PASSWORD_END]).
      assert (2 ≤ len pwd_norm) as Hlen.
      { unfold len, pwd_norm. simpl. rewrite length_app. simpl. lia. }
      rewrite (range_cons 0) by lia. cbn [for_]. unfold bind.
      rewrite (range_cons 0) by lia. cbn [for_]. unfold bind.
      by rewrite increment_zero.
  - intros Hcls Hord w. unfold virtual_train_on_pwd. rewrite bind_get, Hcls.
    unfold BackoffMarkovModel.train_on_pwd. rewrite bind_get.
    apply for_idle. intros p s' Hp.
    rewrite range_nil; [done|].
    unfold range in Hp. apply list_elem_of_fmap in Hp as (k & -> & _). lia.
Qed.

Lemma bind_keeps {A B} (P : t → Prop) (mA : M t A) (k : A → M t B) (s : t) :
  P s → (∀ s', P s' → P (mA s').2) → (∀ a s', P s' → P (k a s').2) →
  P (bind mA k s).2.
Proof.
  intros Hs Hm Hk. unfold bind. specialize (Hm s Hs).
  destruct (mA s) as [[a|e] s']; simpl in *; [by apply Hk | done].
Qed.

Lemma for_keeps {X} (P : t → Prop) (l : list X) (body : X → M t unit) (s : t) :
  P s → (∀ x s', P s' → P (body x s').2) → P (for_ l body s).2.
Proof.
  intros Hs Hbody. revert s Hs. induction l as [|x l IH]; intros s Hs; [done|].
  simpl. apply bind_keeps; [done| |]; intros; [by apply Hbody | by apply IH].
Qed.

Lemma increment_keeps_keys g w m :
  keys_within_order m → keys_within_order (increment g w m).2.
Proof.
  intros Hkeys. unfold increment.
  destruct (negb (w =? 0)); [|done]. rewrite bind_assert_true by done.
  rewrite bind_get.
  destruct (Z.leb_spec (len g) (order m)) as [Hlen|Hlen]; [|done].
  rewrite bind_assert_true by done.
  assert (∀ v, keys_within_order (set_freq_dict (<[g := v]> (freq_dict m)) m))
    as Hset.
  { intros v g' Hg'. simpl in *.
    destruct (decide (g = g')) as [<-|Hne]; [done|].
    rewrite lookup_insert_ne in Hg' by done. by apply Hkeys. }
  destruct (freq_dict m !! g); [apply Hset|].
  destruct (freq_dict_default m); [apply Hset | done].
Qed.

Lemma virtual_train_on_pwd_keeps_keys pwd w m :
  keys_within_order m →
  keys_within_order (virtual_train_on_pwd PASSWORD_END pwd w m).2.
Proof.
  intros Hkeys. unfold virtual_train_on_pwd. rewrite bind_get. destruct (cls m).
  - unfold MarkovModel.train_on_pwd. rewrite bind_get.
    apply bind_keeps; [done| |].
    { intros s' Hs'. apply for_keeps; [done|]. intros. by apply increment_keeps_keys. }
    intros _ s1 Hs1. apply bind_keeps; [done| |].
    { intros s' Hs'. apply for_keeps; [done|]. intros. by apply increment_keeps_keys. }
    intros _ s2 Hs2. by apply increment_keeps_keys.
  - unfold BackoffMarkovModel.train_on_pwd. rewrite bind_get.
    apply for_keeps; [done|]. intros p s1 Hs1.
    apply for_keeps; [done|]. intros. by apply increment_keeps_keys.
Qed.

(** X11. Training never stores an ngram longer than the order: a table
    without such an ngram has none after [train], whatever the corpus, the
    class of the model and the outcome of training; so it is for every
    model trained from its construction. *)
Theorem train_keeps_keys_within_order pwds (m : MarkovModel.t) :
  (keys_within_order m → keys_within_order (train PASSWORD_END pwds m).2)
  ∧ (∀ c cfg kind ord,
       construct PASSWORD_END c cfg kind ord = Return m →
       keys_within_order (train PASSWORD_END pwds m).2).
Proof.
  assert (keys_within_order m → keys_within_order (train PASSWORD_END pwds m).2)
    as Hkeep.
  { intros Hkeys. unfold train. apply bind_keeps; [done| |].
    { intros s' Hs'. apply for_keeps; [done|].
      intros. by apply virtual_train_on_pwd_keeps_keys. }
    intros _ s1 Hs1. rewrite bind_get. by destruct (make_smoother s1). }
  split; [done|]. intros c cfg kind ord Hcons. apply Hkeep.
  apply construct_settings in Hcons as (_ & _ & _ & _ & _ & Hempty & _).
  intros g [v Hg]. by rewrite Hempty, lookup_empty in Hg.
Qed.

(** X12. A password shorter than the order, under the standard trainer of
    order at least 2: exactly its non-empty prefixes and the password
    followed by the end sentinel are incremented; for the empty password
    that is the end sentinel alone. *)
Theorem train_on_short_password (m : MarkovModel.t) pwd w :
  2 ≤ order m → len pwd < order m → w ≠ 0 → freq_dict_default m = true →
  MarkovModel.train_on_pwd PASSWORD_END pwd w m
  = (Return tt,
     apply_increments w
       (((λ j, take j pwd) <$> seq 1 (length pwd)) ++ [pwd ++ [PASSWORD_END]]) m).
Proof.
  intros Hord Hlen Hw Hdef.
  rewrite train_on_pwd_standard_effect by done. do 2 f_equal.
  unfold standard_ngrams, last_chars, len in *.
  replace (Nat.min (Z.to_nat (order m) - 1) (length pwd)) with (length pwd) by lia.
  replace (length pwd + 1 - Z.to_nat (order m))%nat with 0%nat by lia.
  replace (length pwd - (Z.to_nat (order m) - 1))%nat with 0%nat by lia.
  reflexivity.
Qed.

End training_contract.

(** ** The table that training builds *)

Section trained_table.
Variable PASSWORD_END : char.
Import MarkovModel.
Implicit Types (w : Z) (g : str) (l : list str) (pwds : list (str * Z)).
Implicit Types (c : MarkovModel.class) (ord : Z).

Lemma count_foldl_bump w (d : gmap str Z) l g :
  count (foldl (bump w) d l) g = count d g + w * occurrences g l.
Proof.
  revert d. induction l as [|g' l IH]; intros d; simpl.
  - unfold occurrences. simpl. lia.
  - rewrite IH, count_bump. unfold occurrences. rewrite filter_cons.
    case_decide as Hg; subst; simpl; lia.
Qed.

Lemma lookup_foldl_bump_None w (d : gmap str Z) l g :
  foldl (bump w) d l !! g = None ↔ d !! g = None ∧ g ∉ l.
Proof.
  revert d. induction l as [|g' l IH]; intros d; simpl.
  - split; [intros ?; split; [done|apply not_elem_of_nil] | by intros [? _]].
  - rewrite IH. unfold bump. rewrite not_elem_of_cons. split.
    + intros [Hd Hl]. destruct (decide (g' = g)) as [->|Hne].
      * by rewrite lookup_insert_eq in Hd.
      * rewrite lookup_insert_ne in Hd by done.
        split; [done|]. split; [congruence | done].
    + intros (Hd & Hne & Hl). by rewrite lookup_insert_ne.
Qed.

Lemma foldl_bump_pairs w (d : gmap str Z) (l : list str) :
  foldl (λ d gw, bump gw.2 d gw.1) d ((λ g, (g, w)) <$> l) = foldl (bump w) d l.
Proof. revert d. induction l as [|g l IH]; intros d; simpl; [done|apply IH]. Qed.

Lemma set_freq_dict_twice d1 d2 m :
  set_freq_dict d2 (set_freq_dict d1 m) = set_freq_dict d2 m.
Proof. unfold set_freq_dict. simpl. f_equal. by destruct (smoother m). Qed.

Lemma set_freq_dict_same m : smoother m = None → set_freq_dict (freq_dict m) m = m.
Proof. destruct m. simpl. by intros ->. Qed.

Lemma apply_increments_table w l m :
  smoother m = None →
  apply_increments w l m = set_freq_dict (foldl (bump w) (freq_dict m) l) m.
Proof.
  intros Hnone. unfold apply_increments.
  induction l as [|g l IH] using rev_ind.
  - simpl. by rewrite set_freq_dict_same.
  - rewrite !foldl_snoc, IH. simpl.
    by rewrite set_freq_dict_twice.
Qed.

(** One password, either trainer: the increments of [trainer_ngrams]. *)
Lemma virtual_train_on_pwd_table pwd w m :
  (cls m = ClsMarkovModel → 2 ≤ order m) →
  (cls m = ClsBackoffMarkovModel → 0 ≤ order m) →
  w ≠ 0 → freq_dict_default m = true → smoother m = None →
  virtual_train_on_pwd PASSWORD_END pwd w m
  = (Return tt,
     set_freq_dict
       (foldl (bump w) (freq_dict m)
              (trainer_ngrams PASSWORD_END (cls m) (order m) pwd)) m).
Proof.
  intros Hstd Hback Hw Hdef Hnone.
  unfold virtual_train_on_pwd. rewrite bind_get.
  destruct (cls m) eqn:Hcls; simpl.
  - rewrite train_on_pwd_standard_effect by auto.
    by rewrite apply_increments_table.
  - rewrite train_on_pwd_backoff_effect by auto.
    by rewrite apply_increments_table.
Qed.

Lemma corpus_increments_cons c ord pf pwds :
  corpus_increments PASSWORD_END c ord (pf :: pwds)
  = ((λ g, (g, pf.2)) <$> trainer_ngrams PASSWORD_END c ord pf.1)
    ++ corpus_increments PASSWORD_END c ord pwds.
Proof. reflexivity. Qed.

(** The training loop from any table: the increments of the corpus. *)
Lemma train_loop_table pwds m :
  (cls m = ClsMarkovModel → 2 ≤ order m) →
  (cls m = ClsBackoffMarkovModel → 0 ≤ order m) →
  (∀ pf, pf ∈ pwds → pf.2 ≠ 0) →
  freq_dict_default m = true → smoother m = None →
  for_ pwds (λ pf, virtual_train_on_pwd PASSWORD_END pf.1 pf.2) m
  = (Return tt,
     set_freq_dict
       (foldl (λ d gw, bump gw.2 d gw.1) (freq_dict m)
              (corpus_increments PASSWORD_END (cls m) (order m) pwds)) m).
Proof.
  revert m. induction pwds as [|pf pwds IH]; intros m Hstd Hback Hw Hdef Hnone.
  - simpl. unfold ret. by rewrite set_freq_dict_same.
  - cbn [for_]. unfold bind.
    rewrite virtual_train_on_pwd_table by (auto; apply Hw; by left).
    set (d1 := foldl (bump pf.2) (freq_dict m)
                 (trainer_ngrams PASSWORD_END (cls m) (order m) pf.1)).
    rewrite IH.
    + change (cls (set_freq_dict d1 m)) with (cls m).
      change (order (set_freq_dict d1 m)) with (order m).
      change (freq_dict (set_freq_dict d1 m)) with d1.
      rewrite set_freq_dict_twice, corpus_increments_cons, foldl_app.
      by rewrite foldl_bump_pairs.
    + exact Hstd.
    + exact Hback.
    + intros pf' Hpf'. apply Hw. by right.
    + exact Hdef.
    + simpl. by rewrite Hnone.
Qed.

Lemma count_corpus_increments c ord pwds (d : gmap str Z) g :
  count (foldl (λ d gw, bump gw.2 d gw.1) d
               (corpus_increments PASSWORD_END c ord pwds)) g
  = count d g + corpus_count PASSWORD_END c ord pwds g.
Proof.
  revert d. induction pwds as [|pf pwds IH]; intros d.
  - unfold corpus_count. simpl. lia.
  - rewrite corpus_increments_cons, foldl_app, foldl_bump_pairs, IH.
    rewrite count_foldl_bump. unfold corpus_count. rewrite fmap_cons.
    unfold Zsum. simpl. lia.
Qed.

Lemma lookup_corpus_increments_None c ord pwds (d : gmap str Z) g :
  foldl (λ d gw, bump gw.2 d gw.1) d
        (corpus_increments PASSWORD_END c ord pwds) !! g = None
  ↔ d !! g = None
    ∧ ∀ pf, pf ∈ pwds → g ∉ trainer_ngrams PASSWORD_END c ord pf.1.
Proof.
  revert d. induction pwds as [|pf pwds IH]; intros d.
  - simpl. split; [|by intros [? _]].
    intros Hd. split; [done|]. intros pf Hpf. by apply elem_of_nil in Hpf.
  - rewrite corpus_increments_cons, foldl_app, foldl_bump_pairs, IH.
    rewrite lookup_foldl_bump_None. split.
    + intros [[Hd Hpf] Hrest]. split; [done|].
      intros pf' [->|?]%elem_of_cons; auto.
    + intros [Hd Hall]. split; [split; [done|]|].
      * apply Hall. by left.
      * intros pf' Hpf'. apply Hall. by right.
Qed.

(** What [train] returns on a model fresh from its constructor. *)
Lemma train_fresh c cfg kind ord sc pwds m0 :
  construct PASSWORD_END c cfg kind ord = Return m0 →
  SMOOTHING_MAP kind = Some sc →
  (c = ClsMarkovModel → 2 ≤ ord) → (c = ClsBackoffMarkovModel → 0 ≤ ord) →
  (∀ pf, pf ∈ pwds → pf.2 ≠ 0) →
  train PASSWORD_END pwds m0
  = (Return tt,
     set_smoother
       (Some (Smoother.init sc (corpus_table PASSWORD_END c ord pwds) cfg))
       (set_freq_dict (corpus_table PASSWORD_END c ord pwds) m0)).
Proof.
  intros (Hc & Hkind & Hord & Hcfg & Hnone & Hempty & Hdef & _)%construct_settings
    Hmap Hstd Hback Hw.
  unfold train, bind.
  rewrite train_loop_table by (rewrite ?Hc, ?Hord; auto).
  unfold get, make_smoother. simpl.
  rewrite Hkind, Hmap, Hempty, Hc, Hord, Hcfg. reflexivity.
Qed.

(** X13. The counts after training a model fresh from its constructor,
    with a smoothing kind of [SMOOTHING_MAP], on a corpus of nonzero
    integer weights (standard trainer of order at least 2, or
    backoff-oriented trainer of order at least 0): training returns, the
    count of every ngram is the sum, over the pairs of the corpus, of the
    weight times the number of times the trainer lists the ngram for the
    password, and exactly the listed ngrams are keys of the table. *)
Theorem trained_counts c cfg kind ord sc pwds m0 :
  construct PASSWORD_END c cfg kind ord = Return m0 →
  SMOOTHING_MAP kind = Some sc →
  (c = ClsMarkovModel → 2 ≤ ord) → (c = ClsBackoffMarkovModel → 0 ≤ ord) →
  (∀ pf, pf ∈ pwds → pf.2 ≠ 0) →
  ∃ m,
    train PASSWORD_END pwds m0 = (Return tt, m)
    ∧ (∀ g, count (freq_dict m) g = corpus_count PASSWORD_END c ord pwds g)
    ∧ (∀ g, freq_dict m !! g = None
            ↔ ∀ pf, pf ∈ pwds → g ∉ trainer_ngrams PASSWORD_END c ord pf.1).
Proof.
  intros Hcons Hmap Hstd Hback Hw.
  eexists. split; [by eapply train_fresh|]. simpl. split.
  - intros g. unfold corpus_table. rewrite count_corpus_increments.
    unfold count at 1. by rewrite lookup_empty.
  - intros g. unfold corpus_table. rewrite lookup_corpus_increments_None.
    rewrite lookup_empty. split; [by intros [_ ?] | by intros ?; split].
Qed.

Lemma bump_commute w1 w2 g1 g2 (d : gmap str Z) :
  bump w1 (bump w2 d g2) g1 = bump w2 (bump w1 d g1) g2.
Proof.
  unfold bump. destruct (decide (g1 = g2)) as [->|Hne].
  - rewrite !lookup_insert_eq, !insert_insert_eq. simpl. f_equal. lia.
  - rewrite !lookup_insert_ne by done. by apply insert_insert_ne.
Qed.

Lemma foldl_bump_permutation (l1 l2 : list (str * Z)) (d : gmap str Z) :
  l1 ≡ₚ l2 →
  foldl (λ d gw, bump gw.2 d gw.1) d l1 = foldl (λ d gw, bump gw.2 d gw.1) d l2.
Proof.
  intros Hperm. revert d.
  induction Hperm as [|x l1 l2 _ IH|x y l|l1 l2 l3 _ IH1 _ IH2]; intros d; simpl.
  - done.
  - apply IH.
  - by rewrite bump_commute.
  - by rewrite IH1.
Qed.

(** X14. Training on integer weights does not depend on the order of the
    corpus: on a model fresh from its constructor, with a smoothing kind of
    [SMOOTHING_MAP] (standard trainer of order at least 2, or
    backoff-oriented trainer of order at least 0), two corpora of nonzero
    integer weights that are permutations of each other give the same
    outcome of [train], table and bound smoother included. *)
Theorem train_permutation c cfg kind ord sc pwds1 pwds2 m0 :
  construct PASSWORD_END c cfg kind ord = Return m0 →
  SMOOTHING_MAP kind = Some sc →
  (c = ClsMarkovModel → 2 ≤ ord) → (c = ClsBackoffMarkovModel → 0 ≤ ord) →
  (∀ pf, pf ∈ pwds1 → pf.2 ≠ 0) →
  pwds1 ≡ₚ pwds2 →
  train PASSWORD_END pwds1 m0 = train PASSWORD_END pwds2 m0.
Proof.
  intros Hcons Hmap Hstd Hback Hw Hperm.
  rewrite (train_fresh c cfg kind ord sc pwds1) by done.
  rewrite (train_fresh c cfg kind ord sc pwds2); try done.
  - assert (corpus_table PASSWORD_END c ord pwds1
            = corpus_table PASSWORD_END c ord pwds2) as ->; [|done].
    unfold corpus_table. apply foldl_bump_permutation.
    unfold corpus_increments. by rewrite Hperm.
  - intros pf Hpf. apply Hw. by rewrite Hperm.
Qed.

(** What [fromModelFile] returns. *)
Lemma fromModelFile_inv c fname cfg kind ord fs m :
  fromModelFile PASSWORD_END c fname cfg kind ord fs = Return m →
  ∃ doc, fs !! fname = Some doc
         ∧ freq_dict m = json_load doc ∧ freq_dict_default m = false
         ∧ cls m = c ∧ order m = ord.
Proof.
  unfold fromModelFile. destruct (fs !! fname) as [doc|]; [|done].
  destruct (construct PASSWORD_END c cfg kind ord) as [m0|] eqn:Hcons; [|done].
  apply construct_settings in Hcons as (Hc & _ & Hord & _).
  destruct (make_smoother _); [|done]. intros [= <-].
  exists doc. by repeat split.
Qed.

(** X15. A model loaded from a file holds a plain dictionary: incrementing,
    by a nonzero weight, an ngram within the order that the file does not
    hold raises [KeyError] and changes nothing, while an ngram of the file
    gains the weight; so training a loaded standard model of order at least
    2 on a password whose first character is not an ngram of the file
    raises [KeyError]. *)
Theorem loaded_model_rejects_new_ngrams c fname cfg kind ord fs m g w :
  fromModelFile PASSWORD_END c fname cfg kind ord fs = Return m →
  w ≠ 0 → len g ≤ ord →
  (freq_dict m !! g = None → increment g w m = (Raise KeyError, m))
  ∧ (∀ v, freq_dict m !! g = Some v →
       increment g w m
       = (Return tt, set_freq_dict (<[g := v + w]> (freq_dict m)) m))
  ∧ (c = ClsMarkovModel → 2 ≤ ord →
     ∀ ch pwd, freq_dict m !! [ch] = None →
       virtual_train_on_pwd PASSWORD_END (ch :: pwd) w m = (Raise KeyError, m)).
Proof.
  intros (doc & _ & _ & Hdef & Hc & Hord)%fromModelFile_inv Hw Hlen.
  assert (∀ g', len g' ≤ ord → freq_dict m !! g' = None →
            increment g' w m = (Raise KeyError, m)) as Hnew.
  { intros g' Hlen' Hg'. unfold increment.
    rewrite bind_assert_true by (apply negb_true_iff, Z.eqb_neq, Hw).
    rewrite bind_get.
    rewrite bind_assert_true by (apply Z.leb_le; by rewrite Hord).
    by rewrite Hg', Hdef. }
  split; [by apply Hnew|]. split.
  - intros v Hv. unfold increment.
    rewrite bind_assert_true by (apply negb_true_iff, Z.eqb_neq, Hw).
    rewrite bind_get.
    rewrite bind_assert_true by (apply Z.leb_le; by rewrite Hord).
    by rewrite Hv.
  - intros -> Hord2 ch pwd Hch.
    unfold virtual_train_on_pwd. rewrite bind_get, Hc.
    unfold MarkovModel.train_on_pwd. rewrite bind_get, Hord.
    assert (2 ≤ len (ch :: pwd) + 1) as Hlen2 by (unfold len; simpl; lia).
    rewrite (range_cons 1) by lia. cbn [for_]. unfold bind.
    rewrite slice_prefix by lia. change (take (Z.to_nat 1) (ch :: pwd)) with [ch].
    rewrite Hnew; [done| |done]. unfold len. simpl. lia.
Qed.

End trained_table.

(** ** The guessing function *)

Section guessing.
Variable PASSWORD_END : char.
Variable relevel_prediction_many :
  MarkovGuessingFunction.t → list str → M (list (list ndarray)) unit.
Import MarkovModel.
Import MarkovGuessingFunction.

Abbreviation conditional_probs_many :=
  (MarkovGuessingFunction.conditional_probs_many relevel_prediction_many).

Lemma zeros3_succ (n v : nat) : zeros3 (Datatypes.S n) v = [zeros v] :: zeros3 n v.
Proof. reflexivity. Qed.

Lemma predict_into_middle (self : MarkovGuessingFunction.t) a
    (done rest : list (list ndarray)) (row : ndarray) r row' :
  MarkovModel.predict (model self) a row = (r, row') →
  predict_into self (length done) a (done ++ [row] :: rest)
  = (r, done ++ [row'] :: rest).
Proof.
  intros Hrun. unfold predict_into.
  rewrite list_lookup_middle by done. simpl. rewrite Hrun.
  replace (length done) with (length done + 0)%nat at 1 by lia.
  by rewrite insert_app_r.
Qed.

Lemma predict_into_head (self : MarkovGuessingFunction.t) a
    (rest : list (list ndarray)) (row : ndarray) r row' :
  MarkovModel.predict (model self) a row = (r, row') →
  predict_into self 0 a ([row] :: rest) = (r, [row'] :: rest).
Proof. intros Hrun. exact (predict_into_middle self a [] rest row r row' Hrun). Qed.

(** The loop of [conditional_probs_many] when every prediction returns. *)
Lemma conditional_probs_loop (self : MarkovGuessingFunction.t)
    (P : str → ndarray → Prop) (l : list str) (i : nat)
    (done : list (list ndarray)) :
  length done = i →
  (∀ a, a ∈ l →
     ∃ row, MarkovModel.predict (model self) a (zeros (vocab_size self))
            = (Return tt, row) ∧ P a row) →
  ∃ planes : list (list ndarray),
    for_ (enumerate_from i l) (λ entry, predict_into self entry.1 entry.2)
         (done ++ zeros3 (length l) (vocab_size self))
    = (Return tt, done ++ planes)
    ∧ Forall2 (λ a plane, ∃ row, plane = [row] ∧ P a row) l planes.
Proof.
  revert i done. induction l as [|a l IH]; intros i done Hdone Hrows.
  - exists []. split; [reflexivity | constructor].
  - destruct (Hrows a) as (row & Hrun & HP); [by left|].
    cbn [length enumerate_from for_]. rewrite zeros3_succ. unfold bind.
    subst i. simpl fst. simpl snd.
    rewrite (predict_into_middle self a done _ _ _ _ Hrun).
    destruct (IH (Datatypes.S (length done)) (done ++ [[row]]))
      as (planes & Hloop & Hall).
    { rewrite length_app. simpl. lia. }
    { intros a' Ha'. apply Hrows. by right. }
    exists ([row] :: planes). split.
    + rewrite (cons_middle [row] done), app_assoc, Hloop.
      by rewrite <- app_assoc.
    + constructor; [by exists row | done].
Qed.

Lemma conditional_probs_returns (self : MarkovGuessingFunction.t)
    (P : str → ndarray → Prop) (l : list str) :
  relevel_not_matching_passwords self = false →
  (∀ a, a ∈ l →
     ∃ row, MarkovModel.predict (model self) a (zeros (vocab_size self))
            = (Return tt, row) ∧ P a row) →
  ∃ planes : list (list ndarray),
    conditional_probs_many self l = Return planes
    ∧ Forall2 (λ a plane, ∃ row, plane = [row] ∧ P a row) l planes.
Proof.
  intros Hflag Hrows.
  destruct (conditional_probs_loop self P l 0 [] eq_refl Hrows)
    as (planes & Hloop & Hall).
  exists planes. split; [|done].
  unfold MarkovGuessingFunction.conditional_probs_many, enumerate, bind.
  simpl in Hloop. rewrite Hloop, Hflag. reflexivity.
Qed.

(** X16. The guessing function over a trained standard model with no
    smoothing or additive smoothing, a vocabulary of the size of the
    character set and no relevelling: it returns one row for every string,
    the distribution of the truncated string, and the entry of row [i] at
    the index of a character is what [probability_next_char] returns for
    string [i] and that character. *)
Theorem conditional_probs_many_rows cfg kind ord pwds m0 m
    (self : MarkovGuessingFunction.t) (astring_list : list str) :
  construct PASSWORD_END ClsMarkovModel cfg kind ord = Return m0 →
  train PASSWORD_END pwds m0 = (Return tt, m) →
  kind = "none"%string ∨ kind = "additive"%string →
  model self = m → vocab_size self = length (Config.char_bag cfg) →
  relevel_not_matching_passwords self = false →
  ∃ s (planes : list (list ndarray)),
    smoother m = Some s
    ∧ conditional_probs_many self astring_list = Return planes
    ∧ length planes = length astring_list
    ∧ ∀ (i : nat) a,
        astring_list !! i = Some a →
        planes !! i = Some [distribution s (truncate_context m a)]
        ∧ ∀ nc (j : nat),
            chars_to_index m !! nc = Some j →
            ∃ p, probability_next_char m a nc = Return p
                 ∧ distribution s (truncate_context m a) !! j = Some p.
Proof.
  intros Hcons Htrain Hkind Hmodel Hvocab Hflag.
  destruct (train_returns_inv PASSWORD_END ClsMarkovModel cfg kind ord pwds m0 m)
    as (sc & Hmap & Hsame & Hsm); [done..|].
  pose proof (construct_settings _ _ _ _ _ _ Hcons)
    as (_ & _ & _ & _ & _ & _ & _ & Hidx & Halpha & _).
  destruct Hsame as (_ & Ha & Hi & _).
  set (s := Smoother.init sc (freq_dict m) cfg) in *.
  assert (Smoother.cls s ≠ Smoother.BackoffSmoother) as Hplain.
  { destruct Hkind as [-> | ->]; vm_compute in Hmap; injection Hmap as <-; done. }
  assert (length (Smoother.alphabet s) = length (Config.char_bag cfg)) as Hlen.
  { simpl. unfold sorted. by rewrite merge_sort_Permutation. }
  assert (∀ a, MarkovModel.predict m a (zeros (vocab_size self))
               = (Return tt, distribution s (truncate_context m a))) as Hrow.
  { intros a. unfold predict. rewrite Hsm, Hvocab, <- Hlen.
    by apply predict_plain_zeros. }
  destruct (conditional_probs_returns self
              (λ a row, row = distribution s (truncate_context m a)) astring_list)
    as (planes & Hrun & Hall); [done| |].
  { intros a _. eexists. split; [rewrite Hmodel; apply Hrow | done]. }
  exists s, planes. split; [done|]. split; [done|].
  split; [symmetry; by eapply Forall2_length|].
  intros i a Hia. split.
  - destruct (Forall2_lookup_l _ _ _ _ _ Hall Hia) as (plane & Hp & row & -> & ->).
    done.
  - intros nc j Hj.
    assert (j < length (distribution s (truncate_context m a)))%nat as Hjlen.
    { unfold distribution. rewrite length_fmap, length_next_freqs.
      rewrite Hi, Hidx in Hj.
      destruct (decide (nc ∈ sorted (Config.char_bag cfg))) as [Hin|Hout].
      - destruct (index_dict_from (sorted (Config.char_bag cfg)) 0 ∅ nc)
          as [Hpos _].
        destruct (Hpos Hin) as (j' & Hj' & Hlook & _).
        assert (Some j = Some (0 + j')%nat) as [= ->] by (rewrite <- Hj; exact Hj').
        by apply lookup_lt_Some in Hlook.
      - destruct (index_dict_from (sorted (Config.char_bag cfg)) 0 ∅ nc)
          as [_ Hnone].
        specialize (Hnone Hout).
        assert (Some j = None) as [=]. rewrite <- Hj. exact Hnone. }
    apply lookup_lt_is_Some_2 in Hjlen as [p Hp]. exists p. split; [|done].
    unfold probability_next_char. rewrite Hj.
    replace (length (alphabet m)) with (vocab_size self)
      by (rewrite Ha, Halpha, Hvocab; symmetry; exact Hlen).
    by rewrite Hrow, Hp.
Qed.

(** X17. The guessing function on a non-empty list of strings raises
    [AssertionError] when the vocabulary size is not the length of the
    alphabet of the smoother, and [AttributeError] when the model has no
    smoother yet, whatever the relevelling; on the empty list without
    relevelling it returns the empty array. *)
Theorem conditional_probs_many_errors (self : MarkovGuessingFunction.t) a
    (astring_list : list str) :
  (∀ s, smoother (model self) = Some s →
        vocab_size self ≠ length (Smoother.alphabet s) →
        conditional_probs_many self (a :: astring_list) = Raise AssertionError)
  ∧ (smoother (model self) = None →
     conditional_probs_many self (a :: astring_list) = Raise AttributeError)
  ∧ (relevel_not_matching_passwords self = false →
     conditional_probs_many self [] = Return []).
Proof.
  split; [|split].
  - intros s Hsm Hsize.
    unfold MarkovGuessingFunction.conditional_probs_many, enumerate, bind.
    cbn [length enumerate_from for_]. rewrite zeros3_succ. unfold bind.
    simpl fst. simpl snd.
    rewrite (predict_into_head self a _ (zeros (vocab_size self))
               (Raise AssertionError) (zeros (vocab_size self))); [done|].
    unfold predict. rewrite Hsm. unfold Smoother.predict, bind.
    rewrite assert_shape_fail; [done|]. by rewrite length_zeros.
  - intros Hnone.
    unfold MarkovGuessingFunction.conditional_probs_many, enumerate, bind.
    cbn [length enumerate_from for_]. rewrite zeros3_succ. unfold bind.
    simpl fst. simpl snd.
    rewrite (predict_into_head self a _ (zeros (vocab_size self))
               (Raise AttributeError) (zeros (vocab_size self))); [done|].
    unfold predict. by rewrite Hnone.
  - intros Hflag.
    unfold MarkovGuessingFunction.conditional_probs_many, enumerate, bind.
    simpl. by rewrite Hflag.
Qed.

(** X18. The guessing function over a trained model of the backoff-training
    variant whose empty context has a nonzero total, with a vocabulary of
    the size of the character set and no relevelling: it returns, for every
    string, the distribution of the longest suffix of the truncated string
    whose total is not zero. *)
Theorem conditional_probs_many_backoff cfg kind ord pwds m0 m
    (self : MarkovGuessingFunction.t) (astring_list : list str) :
  construct PASSWORD_END ClsBackoffMarkovModel cfg kind ord = Return m0 →
  train PASSWORD_END pwds m0 = (Return tt, m) →
  model self = m → vocab_size self = length (Config.char_bag cfg) →
  relevel_not_matching_passwords self = false →
  ∀ s, smoother m = Some s → total_mass s [] ≠ 0 →
  ∃ planes : list (list ndarray),
    conditional_probs_many self astring_list = Return planes
    ∧ Forall2
        (λ a plane, ∃ k : nat,
           (k ≤ length (truncate_context m a))%nat
           ∧ total_mass s (drop k (truncate_context m a)) ≠ 0
           ∧ (∀ j : nat, (j < k)%nat →
                total_mass s (drop j (truncate_context m a)) = 0)
           ∧ plane = [distribution s (drop k (truncate_context m a))])
        astring_list planes.
Proof.
  intros Hcons Htrain Hmodel Hvocab Hflag s0 Hs0 Hnz.
  destruct (train_returns_inv PASSWORD_END ClsBackoffMarkovModel cfg kind ord
              pwds m0 m) as (sc & Hmap & Hsame & Hsm); [done..|].
  pose proof (construct_backoff_inv _ _ _ _ _ Hcons) as (_ & Hkind & _).
  pose proof (construct_settings _ _ _ _ _ _ Hcons) as (_ & Hkind' & _).
  rewrite Hkind in Hkind'. subst kind. vm_compute in Hmap. injection Hmap as <-.
  rewrite Hsm in Hs0. injection Hs0 as <-.
  set (s := Smoother.init Smoother.BackoffSmoother (freq_dict m) cfg) in *.
  assert (length (Smoother.alphabet s) = length (Config.char_bag cfg)) as Hlen.
  { simpl. unfold sorted. by rewrite merge_sort_Permutation. }
  destruct (conditional_probs_returns self
    (λ a row, ∃ k : nat,
       (k ≤ length (truncate_context m a))%nat
       ∧ total_mass s (drop k (truncate_context m a)) ≠ 0
       ∧ (∀ j : nat, (j < k)%nat →
            total_mass s (drop j (truncate_context m a)) = 0)
       ∧ row = distribution s (drop k (truncate_context m a))) astring_list)
    as (planes & Hrun & Hall); [done| |].
  { intros a _. rewrite Hmodel. unfold predict. rewrite Hsm, Hvocab, <- Hlen.
    destruct (predict_backoff_longest_suffix s (truncate_context m a))
      as (k & Hk & Hnzk & Hbelow & Hp); [done..|].
    eexists. split; [exact Hp|]. by exists k. }
  exists planes. split; [done|].
  eapply Forall2_impl; [exact Hall|].
  intros a plane (row & -> & k & Hk & Hnzk & Hbelow & ->). by exists k.
Qed.

End guessing.

(** ** The builder and the training command *)

Section builder.
Variable PASSWORD_END : char.
Import MarkovModel.

Lemma SMOOTHING_MAP_backoff kind :
  SMOOTHING_MAP kind = Some Smoother.BackoffSmoother ↔ kind = "backoff"%string.
Proof.
  unfold SMOOTHING_MAP.
  destruct (String.eqb_spec kind "none") as [->|_]; [done|].
  destruct (String.eqb_spec kind "additive") as [->|_]; [done|].
  destruct (String.eqb_spec kind "backoff") as [->|?]; [done|].
  split; [done|]. by intros ->.
Qed.

Lemma build_class kind :
  (if String.eqb kind "backoff" then ClsBackoffMarkovModel else ClsMarkovModel)
  = ClsBackoffMarkovModel ↔ kind = "backoff"%string.
Proof. by destruct (String.eqb_spec kind "backoff"). Qed.

(** X19. The builder binds the backoff smoother to the backoff-training
    variant and to no other: the model it returns, constructed or loaded,
    is of the backoff-training class exactly when the smoothing kind is
    [backoff]. Without a model file the model holds an empty table and no
    smoother, and [predict] raises [AttributeError] without writing to the
    vector; from a model file the smoother is bound and is the backoff
    smoother exactly when the kind is [backoff]. *)
Theorem build_variant cfg kind ord model_file (fs : file_system) m :
  build PASSWORD_END cfg kind ord model_file fs = Return m →
  (cls m = ClsBackoffMarkovModel ↔ kind = "backoff"%string)
  ∧ (model_file = None →
     freq_dict m = ∅ ∧ smoother m = None
     ∧ ∀ context (answer : ndarray),
         predict m context answer = (Raise AttributeError, answer))
  ∧ (∀ fname, model_file = Some fname →
     ∃ doc s, fs !! fname = Some doc ∧ freq_dict m = json_load doc
              ∧ smoother m = Some s
              ∧ Smoother.freq_dict s = json_load doc
              ∧ (Smoother.cls s = Smoother.BackoffSmoother
                 ↔ kind = "backoff"%string)).
Proof.
  unfold build. intros Hbuild. destruct model_file as [fname|].
  - pose proof Hbuild as Hinv.
    apply fromModelFile_inv in Hinv as (doc & Hdoc & Hfd & _ & Hcls & _).
    split; [rewrite Hcls; apply build_class|]. split; [done|].
    intros ? [= <-]. unfold fromModelFile in Hbuild. rewrite Hdoc in Hbuild.
    destruct (construct _ _ _ _ _) as [m0|] eqn:Hcons; [|done].
    apply construct_settings in Hcons as (_ & Hkind & _).
    unfold make_smoother in Hbuild. simpl in Hbuild. rewrite Hkind in Hbuild.
    destruct (SMOOTHING_MAP kind) as [sc|] eqn:Hmap; [|done].
    injection Hbuild as <-. eexists doc, _.
    split; [done|]. split; [done|]. split; [reflexivity|]. split; [done|].
    simpl. rewrite <- SMOOTHING_MAP_backoff, Hmap. split; congruence.
  - apply construct_settings in Hbuild as (Hcls & _ & _ & _ & Hnone & Hempty & _).
    split; [rewrite Hcls; apply build_class|]. split; [|done].
    intros _. split; [done|]. split; [done|].
    intros context answer. unfold predict. by rewrite Hnone.
Qed.

End builder.

(** ** The further properties on the example of the specification *)

Section further_examples.
Import MarkovModel.

Lemma count_nonneg_of_Forall (d : gmap str Z) :
  map_Forall (λ _ v, 0 ≤ v) d → ∀ g, 0 ≤ count d g.
Proof.
  intros Hall g. unfold count. destruct (d !! g) as [v|] eqn:Hg; simpl; [|lia].
  by apply (Hall g v).
Qed.

Lemma example_table_nonneg : ∀ g, 0 ≤ count Example.table g.
Proof.
  apply count_nonneg_of_Forall. unfold Example.table.
  repeat (apply map_Forall_insert_2; [lia|]). apply map_Forall_empty.
Qed.

Lemma chars_to_index_positions_witness :
  ∃ m0,
    construct Example.END ClsMarkovModel (Example.config 0 0) "none" 2 = Return m0
    ∧ (∃ j : nat,
         chars_to_index m0 !! 97%N = Some j
         ∧ sorted (lit "ab$") !! j = Some 97%N
         ∧ ∀ k : nat, sorted (lit "ab$") !! k = Some 97%N → (k ≤ j)%nat)
    ∧ chars_to_index m0 !! 122%N = None.
Proof.
  eexists. split; [vm_compute; reflexivity|].
  destruct (chars_to_index_positions Example.END ClsMarkovModel
              (Example.config 0 0) "none" 2 _ 97%N eq_refl) as [Hin _].
  destruct (chars_to_index_positions Example.END ClsMarkovModel
              (Example.config 0 0) "none" 2 _ 122%N eq_refl) as [_ Hout].
  split.
  - apply Hin. simpl. left.
  - apply Hout. simpl. intros H.
    repeat (apply elem_of_cons in H as [H|H]; [discriminate|]).
    by apply elem_of_nil in H.
Defined.

Lemma probability_next_char_rejects_witness :
  ∃ m0,
    construct Example.END ClsMarkovModel (Example.config 0 0) "none" 2 = Return m0
    ∧ probability_next_char m0 (lit "a") 122%N = Raise AssertionError
    ∧ probability_next_char (train Example.END Example.corpus m0).2 (lit "a") 122%N
      = Raise AssertionError
    ∧ probability_next_char m0 (lit "a") 98%N = Raise AttributeError.
Proof.
  eexists. split; [vm_compute; reflexivity|].
  destruct (probability_next_char_rejects Example.END ClsMarkovModel
              (Example.config 0 0) "none" 2 Example.corpus _ (lit "a") 122%N eq_refl)
    as [Hout _].
  destruct (probability_next_char_rejects Example.END ClsMarkovModel
              (Example.config 0 0) "none" 2 Example.corpus _ (lit "a") 98%N eq_refl)
    as [_ Hin].
  destruct Hout as [H1 H2].
  { simpl. intros H.
    repeat (apply elem_of_cons in H as [H|H]; [discriminate|]).
    by apply elem_of_nil in H. }
  split; [exact H1|]. split; [exact H2|].
  apply Hin. simpl. right. left.
Defined.

Lemma probability_next_char_value_witness :
  ∃ m0 m,
    construct Example.END ClsMarkovModel (Example.config 1 0) "additive" 2
    = Return m0
    ∧ train Example.END Example.corpus m0 = (Return tt, m)
    ∧ ∃ s,
        smoother m = Some s
        ∧ probability_next_char m (lit "ba") 98%N
          = Return (div_int
                      (Finite (of_int (Smoother.freq s
                                         (truncate_context m (lit "ba") ++ [98%N]))))
                      (total_mass s (truncate_context m (lit "ba")))).
Proof.
  eexists. eexists.
  split; [vm_compute; reflexivity|]. split; [vm_compute; reflexivity|].
  eapply (probability_next_char_value Example.END (Example.config 1 0)
            "additive" 2 Example.corpus);
    [vm_compute; reflexivity | vm_compute; reflexivity | by right
    | simpl; right; left].
Defined.

Lemma truncate_context_window_witness :
  ∃ m0,
    construct Example.END ClsMarkovModel (Example.config 0 0) "none" 3 = Return m0
    ∧ truncate_context m0 (truncate_context m0 (lit "abab"))
      = truncate_context m0 (lit "abab")
    ∧ len (truncate_context m0 (lit "abab")) < 3.
Proof.
  eexists. split; [vm_compute; reflexivity|].
  lazymatch goal with
  | |- truncate_context ?m _ = _ ∧ _ =>
      destruct (truncate_context_window m (lit "abab")) as [Hidem Hbound];
        [vm_compute; discriminate|]
  end.
  split; [exact Hidem|].
  apply Hbound. vm_compute. discriminate.
Defined.

Lemma predict_trailing_context_witness :
  ∃ m0 m,
    construct Example.END ClsMarkovModel (Example.config 0 0) "none" 2 = Return m0
    ∧ train Example.END Example.corpus m0 = (Return tt, m)
    ∧ truncate_context m (lit "bb" ++ lit "a") = truncate_context m (lit "a")
    ∧ (∀ answer : ndarray,
         predict m (lit "bb" ++ lit "a") answer = predict m (lit "a") answer)
    ∧ (∀ nc, probability_next_char m (lit "bb" ++ lit "a") nc
             = probability_next_char m (lit "a") nc).
Proof.
  eexists. eexists.
  split; [vm_compute; reflexivity|]. split; [vm_compute; reflexivity|].
  apply (predict_trailing_context _ (lit "bb") (lit "a"));
    vm_compute; discriminate.
Defined.

Lemma predict_entries_in_unit_interval_witness :
  let s := Example.smoother Smoother.AdditiveSmoothingSmoother 1 0 in
  ∃ v : ndarray,
    Smoother.predict s (lit "a") (zeros 3) = (Return tt, v)
    ∧ length v = 3%nat
    ∧ Forall (λ x, ∃ q, x = Finite q ∧ (Q2Qc 0 ≤ q ∧ q ≤ Q2Qc 1)%Qc) v.
Proof.
  intros s.
  apply (predict_entries_in_unit_interval s (lit "a"));
    [vm_compute; discriminate|].
  vm_compute. repeat constructor; discriminate.
Defined.


Lemma backoff_without_flooring_witness :
  let sb := Example.smoother Smoother.BackoffSmoother 1 1 in
  let sa := Example.smoother Smoother.AdditiveSmoothingSmoother 1 1 in
  (∀ g, Smoother.freq sb g = Smoother.freq sa g)
  ∧ (∀ ctx (answer : ndarray),
       length answer = 3%nat → total_mass sa ctx ≠ 0 →
       Smoother.predict sb ctx answer = Smoother.predict sa ctx answer).
Proof.
  intros sb sa.
  apply (backoff_without_flooring sb sa);
    [reflexivity | reflexivity | reflexivity | reflexivity | reflexivity
    | vm_compute; discriminate | apply example_table_nonneg].
Defined.

Lemma backoff_predict_outcome_witness :
  let s := Example.smoother Smoother.BackoffSmoother 0 1 in
  (∃ k : nat,
     (k ≤ length (lit "ab"))%nat
     ∧ total_mass s (drop k (lit "ab")) ≠ 0
     ∧ (∀ j : nat, (j < k)%nat → total_mass s (drop j (lit "ab")) = 0)
     ∧ Smoother.predict s (lit "ab") (zeros 3)
       = (Return tt, distribution s (drop k (lit "ab"))))
  ∨ ((∀ k : nat, (k ≤ length (lit "ab"))%nat → total_mass s (drop k (lit "ab")) = 0)
     ∧ Smoother.predict s (lit "ab") (zeros 3)
       = (Raise AssertionError, zeros 3)).
Proof.
  intros s. apply (backoff_predict_outcome s (lit "ab")). reflexivity.
Defined.

Lemma zero_weight_rejected_witness :
  ∃ m0 mb,
    construct Example.END ClsMarkovModel (Example.config 0 0) "none" 2 = Return m0
    ∧ construct Example.END ClsBackoffMarkovModel (Example.config 0 0) "backoff" 0
      = Return mb
    ∧ virtual_train_on_pwd Example.END (lit "ab") 0 m0 = (Raise AssertionError, m0)
    ∧ ∀ w, virtual_train_on_pwd Example.END (lit "ab") w mb = (Return tt, mb).
Proof.
  eexists. eexists.
  split; [vm_compute; reflexivity|]. split; [vm_compute; reflexivity|].
  split.
  - lazymatch goal with
    | |- virtual_train_on_pwd _ _ _ ?m = _ =>
        apply (proj1 (zero_weight_rejected Example.END m (lit "ab")))
    end.
    left. reflexivity.
  - lazymatch goal with
    | |- ∀ w, virtual_train_on_pwd _ _ _ ?m = _ =>
        apply (proj2 (zero_weight_rejected Example.END m (lit "ab")))
    end.
    + reflexivity.
    + vm_compute. discriminate.
Defined.

Lemma train_keeps_keys_within_order_witness :
  ∃ m0,
    construct Example.END ClsMarkovModel (Example.config 0 0) "none" 2 = Return m0
    ∧ keys_within_order (train Example.END Example.corpus m0).2.
Proof.
  eexists. split; [vm_compute; reflexivity|].
  lazymatch goal with
  | |- keys_within_order (train _ _ ?m).2 =>
      apply (proj2 (train_keeps_keys_within_order Example.END Example.corpus m)
               ClsMarkovModel (Example.config 0 0) "none" 2)
  end.
  vm_compute. reflexivity.
Defined.

Lemma train_on_short_password_witness :
  ∃ m0,
    construct Example.END ClsMarkovModel (Example.config 0 0) "none" 3 = Return m0
    ∧ MarkovModel.train_on_pwd Example.END (lit "ab") 1 m0
      = (Return tt, apply_increments 1 [lit "a"; lit "ab"; lit "ab$"] m0).
Proof.
  eexists. split; [vm_compute; reflexivity|].
  lazymatch goal with
  | |- MarkovModel.train_on_pwd _ _ _ ?m = _ =>
      apply (train_on_short_password Example.END m (lit "ab") 1)
  end.
  - vm_compute. discriminate.
  - vm_compute. reflexivity.
  - discriminate.
  - reflexivity.
Defined.

Lemma trained_counts_witness :
  ∃ m0,
    construct Example.END ClsMarkovModel (Example.config 0 0) "none" 2 = Return m0
    ∧ ∃ m,
        train Example.END Example.corpus m0 = (Return tt, m)
        ∧ (∀ g, count (freq_dict m) g
                = corpus_count Example.END ClsMarkovModel 2 Example.corpus g)
        ∧ (∀ g, freq_dict m !! g = None
                ↔ ∀ pf, pf ∈ Example.corpus →
                        g ∉ trainer_ngrams Example.END ClsMarkovModel 2 pf.1).
Proof.
  eexists. split; [vm_compute; reflexivity|].
  eapply (trained_counts Example.END ClsMarkovModel (Example.config 0 0) "none" 2).
  - vm_compute. reflexivity.
  - reflexivity.
  - intros _. lia.
  - intros _. lia.
  - intros pf Hpf. apply list_elem_of_singleton in Hpf as ->. discriminate.
Defined.

Lemma train_permutation_witness :
  ∃ m0,
    construct Example.END ClsMarkovModel (Example.config 0 0) "none" 2 = Return m0
    ∧ train Example.END [(lit "ab", 1); (lit "b", 2)] m0
      = train Example.END [(lit "b", 2); (lit "ab", 1)] m0.
Proof.
  eexists. split; [vm_compute; reflexivity|].
  eapply (train_permutation Example.END ClsMarkovModel (Example.config 0 0)
            "none" 2).
  - vm_compute. reflexivity.
  - reflexivity.
  - intros _. lia.
  - intros _. lia.
  - intros pf Hpf.
    repeat (apply elem_of_cons in Hpf as [->|Hpf]; [discriminate|]).
    by apply elem_of_nil in Hpf.
  - apply perm_swap.
Defined.

Lemma loaded_model_rejects_new_ngrams_witness :
  let fs : file_system := {[ "model.json"%string := json_dump Example.table ]} in
  ∃ m,
    fromModelFile Example.END ClsMarkovModel "model.json" (Example.config 0 0)
      "none" 2 fs = Return m
    ∧ increment (lit "bb") 1 m = (Raise KeyError, m)
    ∧ increment (lit "ab") 1 m
      = (Return tt, set_freq_dict (<[lit "ab" := 1 + 1]> (freq_dict m)) m)
    ∧ virtual_train_on_pwd Example.END (lit "ba") 1 m = (Raise KeyError, m).
Proof.
  intros fs. eexists. split; [vm_compute; reflexivity|].
  lazymatch goal with
  | |- increment _ _ ?m = _ ∧ _ =>
      destruct (loaded_model_rejects_new_ngrams Example.END ClsMarkovModel
                  "model.json" (Example.config 0 0) "none" 2 fs m (lit "bb") 1)
        as (Hnew & _ & _); [vm_compute; reflexivity | discriminate
                           | vm_compute; discriminate |];
      destruct (loaded_model_rejects_new_ngrams Example.END ClsMarkovModel
                  "model.json" (Example.config 0 0) "none" 2 fs m (lit "ab") 1)
        as (_ & Hold & Htrain); [vm_compute; reflexivity | discriminate
                                | vm_compute; discriminate |]
  end.
  split; [apply Hnew; vm_compute; reflexivity|].
  split; [apply Hold; vm_compute; reflexivity|].
  apply (Htrain eq_refl ltac:(lia) 98%N (lit "a")). vm_compute. reflexivity.
Defined.

Lemma conditional_probs_many_rows_witness :
  ∃ m0 m,
    construct Example.END ClsMarkovModel (Example.config 1 0) "additive" 2
    = Return m0
    ∧ train Example.END Example.corpus m0 = (Return tt, m)
    ∧ let self :=
        {| MarkovGuessingFunction.model := m;
           MarkovGuessingFunction.vocab_size := 3;
           MarkovGuessingFunction.relevel_not_matching_passwords := false |} in
      let astring_list := [lit "a"; lit "ab"] in
      ∃ s (planes : list (list ndarray)),
        smoother m = Some s
        ∧ MarkovGuessingFunction.conditional_probs_many (λ _ _, ret tt)
            self astring_list = Return planes
        ∧ length planes = length astring_list
        ∧ ∀ (i : nat) a,
            astring_list !! i = Some a →
            planes !! i = Some [distribution s (truncate_context m a)]
            ∧ ∀ nc (j : nat),
                chars_to_index m !! nc = Some j →
                ∃ p, probability_next_char m a nc = Return p
                     ∧ distribution s (truncate_context m a) !! j = Some p.
Proof.
  eexists. eexists.
  split; [vm_compute; reflexivity|]. split; [vm_compute; reflexivity|].
  intros self astring_list.
  eapply (conditional_probs_many_rows Example.END (λ _ _, ret tt)
            (Example.config 1 0) "additive" 2 Example.corpus);
    [vm_compute; reflexivity | vm_compute; reflexivity | by right
    | reflexivity | reflexivity | reflexivity].
Defined.

Lemma conditional_probs_many_errors_witness :
  ∃ m0 m,
    construct Example.END ClsMarkovModel (Example.config 1 0) "additive" 2
    = Return m0
    ∧ train Example.END Example.corpus m0 = (Return tt, m)
    ∧ MarkovGuessingFunction.conditional_probs_many (λ _ _, ret tt)
        {| MarkovGuessingFunction.model := m;
           MarkovGuessingFunction.vocab_size := 5;
           MarkovGuessingFunction.relevel_not_matching_passwords := false |}
        [lit "a"; lit "ab"] = Raise AssertionError
    ∧ MarkovGuessingFunction.conditional_probs_many (λ _ _, ret tt)
        {| MarkovGuessingFunction.model := m0;
           MarkovGuessingFunction.vocab_size := 3;
           MarkovGuessingFunction.relevel_not_matching_passwords := false |}
        [lit "a"; lit "ab"] = Raise AttributeError
    ∧ MarkovGuessingFunction.conditional_probs_many (λ _ _, ret tt)
        {| MarkovGuessingFunction.model := m0;
           MarkovGuessingFunction.vocab_size := 3;
           MarkovGuessingFunction.relevel_not_matching_passwords := false |}
        [] = Return [].
Proof.
  eexists. eexists.
  split; [vm_compute; reflexivity|]. split; [vm_compute; reflexivity|].
  split; [|split].
  - lazymatch goal with
    | |- MarkovGuessingFunction.conditional_probs_many ?r ?self (?a :: ?l) = _ =>
        eapply (proj1 (conditional_probs_many_errors r self a l))
    end.
    + vm_compute. reflexivity.
    + vm_compute. discriminate.
  - lazymatch goal with
    | |- MarkovGuessingFunction.conditional_probs_many ?r ?self (?a :: ?l) = _ =>
        apply (proj1 (proj2 (conditional_probs_many_errors r self a l)))
    end.
    reflexivity.
  - lazymatch goal with
    | |- MarkovGuessingFunction.conditional_probs_many ?r ?self [] = _ =>
        apply (proj2 (proj2 (conditional_probs_many_errors r self (lit "a") [])))
    end.
    reflexivity.
Defined.

Lemma conditional_probs_many_backoff_witness :
  ∃ m0 m,
    construct Example.END ClsBackoffMarkovModel (Example.config 0 1) "backoff" 2
    = Return m0
    ∧ train Example.END Example.corpus m0 = (Return tt, m)
    ∧ let self :=
        {| MarkovGuessingFunction.model := m;
           MarkovGuessingFunction.vocab_size := 3;
           MarkovGuessingFunction.relevel_not_matching_passwords := false |} in
      let astring_list := [lit "a"; lit "bb"] in
      ∃ s,
        smoother m = Some s
        ∧ ∃ planes : list (list ndarray),
            MarkovGuessingFunction.conditional_probs_many (λ _ _, ret tt)
              self astring_list = Return planes
            ∧ Forall2
                (λ a plane, ∃ k : nat,
                   (k ≤ length (truncate_context m a))%nat
                   ∧ total_mass s (drop k (truncate_context m a)) ≠ 0
                   ∧ (∀ j : nat, (j < k)%nat →
                        total_mass s (drop j (truncate_context m a)) = 0)
                   ∧ plane = [distribution s (drop k (truncate_context m a))])
                astring_list planes.
Proof.
  eexists. eexists.
  split; [vm_compute; reflexivity|]. split; [vm_compute; reflexivity|].
  intros self astring_list.
  eexists. split; [vm_compute; reflexivity|].
  eapply (conditional_probs_many_backoff Example.END (λ _ _, ret tt)
            (Example.config 0 1) "backoff" 2 Example.corpus);
    [vm_compute; reflexivity | vm_compute; reflexivity | reflexivity
    | reflexivity | reflexivity | vm_compute; reflexivity
    | vm_compute; discriminate].
Defined.

Lemma build_variant_witness :
  ∃ m,
    build Example.END (Example.config 0 1) "backoff" 2 None ∅ = Return m
    ∧ cls m = ClsBackoffMarkovModel
    ∧ freq_dict m = ∅ ∧ smoother m = None
    ∧ ∀ context (answer : ndarray),
        predict m context answer = (Raise AttributeError, answer).
Proof.
  eexists. split; [vm_compute; reflexivity|].
  lazymatch goal with
  | |- cls ?m = _ ∧ _ =>
      destruct (build_variant Example.END (Example.config 0 1) "backoff" 2
                  None ∅ m) as (Hcls & Hnone & _); [vm_compute; reflexivity|]
  end.
  split; [by apply Hcls | by apply Hnone].
Defined.

End further_examples.
